(** * The recording routine of the VS1053 Arduino music player

    A shallow embedding of [record] (VS1053_experimental.ino, and its twin in
    the non-experimental sketch) together with the properties of its
    drain loop: the four-state shutdown protocol, the buffer discipline of
    [wbuff], the handling of the last word of the stream and the order of
    the configuration steps.

    The sketch talks to three collaborators: the VS1053 (registers, the DREQ
    pin, the plugin loader), the SD file [file] and the stop sources (keypad
    and serial port).  What they answer is not decided by the sketch, so it is
    a parameter of the model: an [Env] gives, for every source of input, the
    value of its k-th sample.  What the sketch does to them is recorded in the
    state: the bytes appended to the file, and a trace of the register
    writes, file operations and assignments to the global [rec_state]. *)

From Stdlib Require Import ZArith List String Bool Lia.
Import ListNotations.
Open Scope Z_scope.

(** ** Machine integers *)

Definition u8 (z : Z) : Z := z mod 256.
Definition u16 (z : Z) : Z := z mod 65536.
Definition u32 (z : Z) : Z := z mod 4294967296.

(** ** Registers of the VS1053 used by [record] *)

Inductive reg : Set :=
| SCI_MODE | SCI_BASS | SCI_CLOCKF | SCI_WRAM | SCI_WRAMADDR
| SCI_HDAT0 | SCI_HDAT1 | SCI_AIADDR
| SCI_AICTRL1 | SCI_AICTRL2 | SCI_AICTRL3.

Definition reg_tag (r : reg) : nat :=
  match r with
  | SCI_MODE => 0 | SCI_BASS => 2 | SCI_CLOCKF => 3 | SCI_WRAM => 6
  | SCI_WRAMADDR => 7 | SCI_HDAT0 => 8 | SCI_HDAT1 => 9 | SCI_AIADDR => 10
  | SCI_AICTRL1 => 13 | SCI_AICTRL2 => 14 | SCI_AICTRL3 => 15
  end%nat.

(** #define VS1053_INT_ENABLE 0xC01A, and the LCD row of the timer. *)
Definition VS1053_INT_ENABLE : Z := 0xC01A.
Definition LINE2 : Z := 0x10.

(** ** Inputs: everything the sketch samples from the outside *)

Inductive src : Set :=
| InDreq              (* digitalRead(MP3_DREQ) *)
| InClock             (* millis() *)
| InKey               (* keypad.getKey() *)
| InAvail             (* Serial.available() *)
| InSerial            (* Serial.read() *)
| InReg (r : reg).    (* MP3player.Mp3ReadRegister(r) *)

Definition src_tag (x : src) : nat :=
  match x with
  | InDreq => 0 | InClock => 1 | InKey => 2 | InAvail => 3 | InSerial => 4
  | InReg r => 5 + reg_tag r
  end%nat.

Definition src_eqb (x y : src) : bool := Nat.eqb (src_tag x) (src_tag y).

(** The behaviour of the collaborators.  The mode bits of SCI_MODE come from
    the SFEMP3Shield header, which is not part of the sketch: they are taken
    as parameters, and so is the compile-time switch USE_LINEIN. *)
Record Env : Type := {
  dreq : nat -> bool;              (* k-th sample of the DREQ pin *)
  clock : nat -> Z;                (* k-th answer of millis() *)
  key_in : nat -> Z;               (* k-th answer of keypad.getKey() *)
  avail_in : nat -> Z;             (* k-th answer of Serial.available() *)
  serial_in : nat -> Z;            (* k-th answer of Serial.read() *)
  reg_in : reg -> nat -> Z;        (* k-th value read from a register *)
  plugin_result : Z;               (* what VSLoadUserCode returns *)
  open_ok : string -> bool;        (* whether file.open succeeds *)
  SM_RESET : Z;
  SM_ADPCM : Z;
  SM_SDINEW : Z;
  SM_LINE1 : Z;
  USE_LINEIN : bool
}.

(** ** Outputs and state *)

Inductive event : Set :=
| EvState (v : Z)                  (* rec_state = v *)
| EvWrite (r : reg) (v : Z)        (* MP3player.Mp3WriteRegister(r, v) *)
| EvPlugin (name : string)         (* MP3player.VSLoadUserCode(name) *)
| EvOpen (name : string)           (* file.open(name, O_RDWR | O_CREAT) *)
| EvClose                          (* file.close() *)
| EvLcd (line : Z) (v : Z)         (* printline(line, v) *)
| EvPrint (msg : string).          (* Serial.println(msg) *)

Record St : Type := mkSt {
  rec_state : Z;                   (* the global uint8_t rec_state *)
  wbuff : list Z;                  (* byte wbuff[256] of record's frame *)
  sink : list Z;                   (* the bytes written to [file] so far *)
  trace : list event;              (* outputs, oldest first *)
  inputs : list src                (* samples taken, newest first *)
}.

(** The number of samples already taken from a source. *)
Definition seen (x : src) (s : St) : nat :=
  List.length (filter (src_eqb x) (inputs s)).

(** ** The monad of the sketch

    A step either goes on with a value, leaves [record] through a [return]
    statement, is still inside a loop when the fuel is used up, or has
    indexed [wbuff] outside its 256 bytes. *)

Inductive res (A : Type) : Type :=
| Cont (a : A) (s : St)
| Returned (code : Z) (s : St)
| OutOfFuel (s : St)
| Fault (s : St).

Arguments Cont {A} a s.
Arguments Returned {A} code s.
Arguments OutOfFuel {A} s.
Arguments Fault {A} s.

Definition M (A : Type) : Type := St -> res A.

Definition ret {A} (a : A) : M A := fun s => Cont a s.

Definition bind {A B} (m : M A) (k : A -> M B) : M B :=
  fun s =>
    match m s with
    | Cont a s' => k a s'
    | Returned c s' => Returned c s'
    | OutOfFuel s' => OutOfFuel s'
    | Fault s' => Fault s'
    end.

Definition return_ {A} (code : Z) : M A := fun s => Returned code s.
Definition out_of_fuel {A} : M A := fun s => OutOfFuel s.

Definition when (b : bool) (m : M unit) : M unit := if b then m else ret tt.

Declare Scope sketch_scope.
Delimit Scope sketch_scope with sketch.
Notation "x <- m ;; k" := (bind m (fun x => k))
  (at level 61, m at next level, right associativity) : sketch_scope.
Notation "m ;; k" := (bind m (fun _ => k))
  (at level 61, right associativity) : sketch_scope.
Open Scope sketch_scope.

(** The state a computation stops in, whatever the way it stops. *)
Definition final {A} (r : res A) : St :=
  match r with
  | Cont _ s | Returned _ s | OutOfFuel s | Fault s => s
  end.

(** ** Primitive operations *)

Definition emit (ev : event) : M unit :=
  fun s => Cont tt (mkSt (rec_state s) (wbuff s) (sink s) (trace s ++ [ev]) (inputs s)).

Definition sample (x : src) : M nat :=
  fun s => Cont (seen x s)
                (mkSt (rec_state s) (wbuff s) (sink s) (trace s) (x :: inputs s)).

Definition get_rec_state : M Z := fun s => Cont (rec_state s) s.

Definition set_rec_state (v : Z) : M unit :=
  fun s => Cont tt (mkSt (u8 v) (wbuff s) (sink s) (trace s ++ [EvState (u8 v)]) (inputs s)).

(** wbuff[i] = b, for an index computed in int. *)
Definition store_wbuff (i : Z) (b : Z) : M unit :=
  fun s =>
    if (0 <=? i) && (i <? Z.of_nat (List.length (wbuff s)))
    then Cont tt (mkSt (rec_state s)
                       (firstn (Z.to_nat i) (wbuff s) ++ u8 b :: skipn (S (Z.to_nat i)) (wbuff s))
                       (sink s) (trace s) (inputs s))
    else Fault s.

(** file.write(wbuff, n): the first n bytes of the buffer go to the file. *)
Definition file_write_wbuff (n : Z) : M unit :=
  fun s =>
    if (0 <=? n) && (n <=? Z.of_nat (List.length (wbuff s)))
    then Cont tt (mkSt (rec_state s) (wbuff s)
                       (sink s ++ firstn (Z.to_nat n) (wbuff s)) (trace s) (inputs s))
    else Fault s.

(** file.write(b): one byte. *)
Definition file_write (b : Z) : M unit :=
  fun s => Cont tt (mkSt (rec_state s) (wbuff s) (sink s ++ [u8 b]) (trace s) (inputs s)).

Section Sketch.

Variable e : Env.

Definition digitalRead_DREQ : M bool :=
  k <- sample InDreq ;; ret (dreq e k).

Definition millis : M Z :=
  k <- sample InClock ;; ret (u32 (clock e k)).

Definition keypad_getKey : M Z :=
  k <- sample InKey ;; ret (u8 (key_in e k)).

Definition Serial_available : M Z :=
  k <- sample InAvail ;; ret (avail_in e k).

Definition Serial_read : M Z :=
  k <- sample InSerial ;; ret (serial_in e k).

Definition Serial_println (msg : string) : M unit := emit (EvPrint msg).

Definition printline (n v : Z) : M unit := emit (EvLcd n v).

Definition Mp3ReadRegister (r : reg) : M Z :=
  k <- sample (InReg r) ;; ret (u16 (reg_in e r k)).

Definition Mp3WriteRegister (r : reg) (v : Z) : M unit :=
  emit (EvWrite r (u16 v)).

Definition VSLoadUserCode (name : string) : M Z :=
  emit (EvPlugin name) ;; ret (u8 (plugin_result e)).

Definition file_open (name : string) : M bool :=
  emit (EvOpen name) ;; ret (open_ok e name).

Definition file_close : M unit := emit EvClose.

(** What the k-th read of register [r] from now on will deliver. *)
Definition next_read (r : reg) (k : nat) (s : St) : Z :=
  u16 (reg_in e r (seen (InReg r) s + k)).

(** ** The waits for DREQ

    while (!digitalRead(MP3_DREQ) || millis() - timer > 100UL) {;}
    The right operand is evaluated only when DREQ reads high. *)
Fixpoint wait_dreq (fuel : nat) (timer : Z) : M unit :=
  match fuel with
  | O => out_of_fuel
  | S fuel' =>
      d <- digitalRead_DREQ ;;
      if negb d then wait_dreq fuel' timer
      else
        now <- millis ;;
        if u32 (now - timer) >? 100 then wait_dreq fuel' timer
        else ret tt
  end.

(** ** The drain loop *)

(** for (j = from; j < from + n; j++) body(j), for a bound fixed before the loop. *)
Fixpoint for_loop (n : nat) (j : Z) (body : Z -> M unit) : M unit :=
  match n with
  | O => ret tt
  | S n' => body j ;; for_loop n' (j + 1) body
  end.

(** The body of the inner for: one word from HDAT0 into two bytes of wbuff. *)
Definition stage_word (j : Z) : M unit :=
  data <- Mp3ReadRegister SCI_HDAT0 ;;
  store_wbuff (2 * j) (Z.shiftr data 8) ;;
  store_wbuff (2 * j + 1) (Z.land data 0xFF).

(** One pass of the for over i: stage wordsToWrite words, then write them. *)
Definition transfer_pass (wordsToWrite : Z) : M unit :=
  for_loop (Z.to_nat wordsToWrite) 0 stage_word ;;
  when (negb (wordsToWrite =? 0)) (file_write_wbuff (2 * wordsToWrite)).

(** The twin sketch has no "if (wordsToWrite)" around the write. *)
Definition transfer_pass_unguarded (wordsToWrite : Z) : M unit :=
  for_loop (Z.to_nat wordsToWrite) 0 stage_word ;;
  file_write_wbuff (2 * wordsToWrite).

(** The block under "if last data block". *)
Definition terminal_word : M unit :=
  set_rec_state 3 ;;
  data <- Mp3ReadRegister SCI_HDAT0 ;;
  file_write (Z.shiftr data 8) ;;
  Mp3ReadRegister SCI_AICTRL3 ;;
  a <- Mp3ReadRegister SCI_AICTRL3 ;;
  when (Z.land a (Z.shiftl 1 2) =? 0) (file_write (Z.land data 0xFF)).

(** wordsToRead as it stands after the adjustment for the last block. *)
Definition chunk_words (st wordsWaiting : Z) : Z :=
  let wordsToRead := Z.min wordsWaiting 256 in
  let wordsWaiting' := u16 (wordsWaiting - wordsToRead) in
  if (st =? 2) && (wordsWaiting' =? 0) then u16 (wordsToRead - 1) else wordsToRead.

(** The body of the while over wordsWaiting; it yields the new wordsWaiting. *)
Definition drain_body (wordsWaiting : Z) : M Z :=
  let wordsToRead := Z.min wordsWaiting 256 in
  let wordsWaiting := u16 (wordsWaiting - wordsToRead) in
  st <- get_rec_state ;;
  let wordsToRead :=
    if (st =? 2) && (wordsWaiting =? 0) then u16 (wordsToRead - 1) else wordsToRead in
  let wordsToWrite := u8 (wordsToRead / 2) in
  for_loop 2 0 (fun _ => transfer_pass wordsToWrite) ;;
  when (wordsToRead <? 256) terminal_word ;;
  ret wordsWaiting.

(** wordsWaiting >= ((rec_state < 2) ? 256 : 1) *)
Definition drain_guard (st wordsWaiting : Z) : bool :=
  wordsWaiting >=? (if st <? 2 then 256 else 1).

Fixpoint drain_loop (fuel : nat) (wordsWaiting : Z) : M Z :=
  st <- get_rec_state ;;
  if drain_guard st wordsWaiting then
    match fuel with
    | O => out_of_fuel
    | S fuel' => w <- drain_body wordsWaiting ;; drain_loop fuel' w
    end
  else ret wordsWaiting.

(** The stop request, from the keypad or from the serial port. *)
Definition request_stop : M unit :=
  set_rec_state 1 ;;
  Mp3WriteRegister SCI_AICTRL3 1.

(** One iteration of while (rec_state < 3). *)
Definition loop_body (timer : Z) : M unit :=
  now <- millis ;;
  printline LINE2 (u32 (now - timer) / 1000) ;;
  key <- keypad_getKey ;;
  st <- get_rec_state ;;
  when (negb (key =? 0) && (st =? 0)) request_stop ;;
  n <- Serial_available ;;
  when (negb (n =? 0))
    (c <- Serial_read ;;
     st <- get_rec_state ;;
     when ((c =? 115) && (st =? 0)) request_stop) ;;
  wordsWaiting <- Mp3ReadRegister SCI_HDAT1 ;;
  st <- get_rec_state ;;
  wordsWaiting <-
    (if st =? 1 then
       a <- Mp3ReadRegister SCI_AICTRL3 ;;
       if negb (Z.land a (Z.shiftl 1 1) =? 0) then
         set_rec_state 2 ;;
         Mp3ReadRegister SCI_HDAT1
       else ret wordsWaiting
     else ret wordsWaiting) ;;
  drain_loop (S (Z.to_nat wordsWaiting)) wordsWaiting ;;
  ret tt.

Fixpoint rec_loop (fuel : nat) (timer : Z) : M unit :=
  st <- get_rec_state ;;
  if st <? 3 then
    match fuel with
    | O => out_of_fuel
    | S fuel' => loop_body timer ;; rec_loop fuel' timer
    end
  else ret tt.

(** ** record

    [filename] is [None] for a null pointer.  Each while loop runs on
    [fuel]; the drain loop carries its own bound. *)
Definition record (fuel : nat) (filename : option string) : M Z :=
  set_rec_state 0 ;;
  (* 1. clock *)
  Mp3WriteRegister SCI_CLOCKF 0xC000 ;;
  timer <- millis ;;
  wait_dreq fuel timer ;;
  (* 2. clear SCI_BASS *)
  Mp3WriteRegister SCI_BASS 0 ;;
  (* 3. reset *)
  m <- Mp3ReadRegister SCI_MODE ;;
  Mp3WriteRegister SCI_MODE (Z.lor m (SM_RESET e)) ;;
  timer <- millis ;;
  wait_dreq fuel timer ;;
  (* 4. interrupts *)
  Mp3WriteRegister SCI_WRAMADDR VS1053_INT_ENABLE ;;
  Mp3WriteRegister SCI_WRAM 0x2 ;;
  (* 5. plugin *)
  r <- VSLoadUserCode "oggenc.053" ;;
  when (negb (r =? 0))
    (Serial_println "Can't load plugin" ;; return_ 1) ;;
  match filename with
  | Some name =>
      ok <- file_open name ;;
      when (negb ok) (Serial_println "Can't open file" ;; return_ 2)
  | None =>
      Serial_println "No filename given" ;; return_ 3
  end ;;
  (* 6. mode bits *)
  Mp3WriteRegister SCI_MODE
    (if USE_LINEIN e
     then Z.lor (Z.lor (SM_LINE1 e) (SM_ADPCM e)) (SM_SDINEW e)
     else Z.lor (SM_ADPCM e) (SM_SDINEW e)) ;;
  (* 7. recording levels *)
  Mp3WriteRegister SCI_AICTRL1 1024 ;;
  Mp3WriteRegister SCI_AICTRL2 0 ;;
  (* 9. *)
  Mp3WriteRegister SCI_AICTRL3 0 ;;
  (* 11. *)
  Mp3WriteRegister SCI_AIADDR 0x34 ;;
  (* 12. *)
  timer <- millis ;;
  wait_dreq fuel timer ;;
  Serial_println "Recording started..." ;;
  timer <- millis ;;
  rec_loop fuel timer ;;
  file_close ;;
  m <- Mp3ReadRegister SCI_MODE ;;
  Mp3WriteRegister SCI_MODE (Z.lor m (SM_RESET e)) ;;
  Serial_println "Done" ;;
  return_ 0.

End Sketch.

(** The state on entry: [rec_state] holds what the last call left, the stack
    array holds whatever was there, nothing was written or read yet. *)
Definition alloc_wbuff (junk : list Z) : list Z :=
  firstn 256 (map u8 junk ++ repeat 0 256).

Definition entry_state (stale : Z) (junk : list Z) : St :=
  mkSt (u8 stale) (alloc_wbuff junk) [] [] [].

(** ** Devices for the scenarios

    [bench] is a board that is ready at once: DREQ high, a clock that
    advances by one at every reading, the plugin and the file in place.  The
    scenarios differ in the keys pressed and in what the registers deliver. *)
Definition bench (keys : nat -> Z) (regs : reg -> nat -> Z) : Env :=
  {| dreq := fun _ => true;
     clock := fun k => Z.of_nat k;
     key_in := keys;
     avail_in := fun _ => 0;
     serial_in := fun _ => -1;
     reg_in := regs;
     plugin_result := 0;
     open_ok := fun _ => true;
     SM_RESET := 0x0004;
     SM_ADPCM := 0x1000;
     SM_SDINEW := 0x0800;
     SM_LINE1 := 0x4000;
     USE_LINEIN := false |}.

(** The key '5' at the k-th poll of the keypad, no key otherwise. *)
Definition key_at (k : nat) : nat -> Z := fun i => if Nat.eqb i k then 53 else 0.

(** Scenario C: 300, 300 and then 40 words waiting, the stop key at the third
    poll, the stop acknowledged at once; the k-th word of the stream is k. *)
Definition scenario_C : Env :=
  bench (key_at 2)
        (fun r k =>
           match r with
           | SCI_HDAT1 => nth k [300; 300; 40; 40] 0
           | SCI_AICTRL3 => nth k [2] 0
           | SCI_HDAT0 => Z.of_nat k
           | _ => 0
           end).

(** The same with the count read as 0 the fourth time (the sequence of the
    scenario taken read by read). *)
Definition scenario_C_by_read : Env :=
  bench (key_at 2)
        (fun r k =>
           match r with
           | SCI_HDAT1 => nth k [300; 300; 40; 0] 0
           | SCI_AICTRL3 => nth k [2] 0
           | SCI_HDAT0 => Z.of_nat k
           | _ => 0
           end).

(** Scenario A: the stop key at the first poll, the stop acknowledged at
    once, never a word waiting. *)
Definition scenario_A : Env :=
  bench (key_at 0)
        (fun r _ => match r with SCI_AICTRL3 => 2 | _ => 0 end).

(** The same with one word waiting once the stop is acknowledged: [data] is
    that word, [status] what SCI_AICTRL3 reads from then on. *)
Definition scenario_A_one_word (data status : Z) : Env :=
  bench (key_at 0)
        (fun r k =>
           match r with
           | SCI_AICTRL3 => if Nat.eqb k 0 then 2 else status
           | SCI_HDAT1 => if Nat.eqb k 0 then 0 else 1
           | SCI_HDAT0 => data
           | _ => 0
           end).

(** A device whose DREQ never rises. *)
Definition dreq_stuck_low : Env :=
  {| dreq := fun _ => false;
     clock := fun k => Z.of_nat k;
     key_in := fun _ => 0;
     avail_in := fun _ => 0;
     serial_in := fun _ => -1;
     reg_in := fun _ _ => 0;
     plugin_result := 0;
     open_ok := fun _ => true;
     SM_RESET := 0x0004;
     SM_ADPCM := 0x1000;
     SM_SDINEW := 0x0800;
     SM_LINE1 := 0x4000;
     USE_LINEIN := false |}.

(** A device whose DREQ is high from the start, polled every 200 ms by a
    slow board: the first look at the clock comes after the deadline. *)
Definition dreq_seen_late : Env :=
  {| dreq := fun _ => true;
     clock := fun k => 200 * Z.of_nat k;
     key_in := fun _ => 0;
     avail_in := fun _ => 0;
     serial_in := fun _ => -1;
     reg_in := fun _ _ => 0;
     plugin_result := 0;
     open_ok := fun _ => true;
     SM_RESET := 0x0004;
     SM_ADPCM := 0x1000;
     SM_SDINEW := 0x0800;
     SM_LINE1 := 0x4000;
     USE_LINEIN := false |}.

(** A board whose plugin file is missing, and one whose card is read-only. *)
Definition no_plugin : Env :=
  {| dreq := fun _ => true;
     clock := fun k => Z.of_nat k;
     key_in := fun _ => 0;
     avail_in := fun _ => 0;
     serial_in := fun _ => -1;
     reg_in := fun _ _ => 0;
     plugin_result := 1;
     open_ok := fun _ => true;
     SM_RESET := 0x0004;
     SM_ADPCM := 0x1000;
     SM_SDINEW := 0x0800;
     SM_LINE1 := 0x4000;
     USE_LINEIN := false |}.

Definition read_only_card : Env :=
  {| dreq := fun _ => true;
     clock := fun k => Z.of_nat k;
     key_in := fun _ => 0;
     avail_in := fun _ => 0;
     serial_in := fun _ => -1;
     reg_in := fun _ _ => 0;
     plugin_result := 0;
     open_ok := fun _ => false;
     SM_RESET := 0x0004;
     SM_ADPCM := 0x1000;
     SM_SDINEW := 0x0800;
     SM_LINE1 := 0x4000;
     USE_LINEIN := false |}.

(** A state inside the recording loop: [rec_state] as given, a fresh buffer,
    nothing written or read. *)
Definition state_in (st : Z) : St := mkSt st (alloc_wbuff []) [] [] [].

(** The two bytes of every word of a list, high byte first. *)
Definition bytes_of (words : list Z) : list Z :=
  flat_map (fun d => [d / 256; d mod 256]) words.

(** * The menus of the sketch

    The rest of the sketch is the menu on the LCD, driven by the keypad, and
    the commands of the serial port.  The characters of a C string are
    their codes, and an array is a list of its elements, indexed from 0. *)

Definition codes (s : string) : list Z :=
  map (fun a => Z.of_nat (Ascii.nat_of_ascii a)) (list_ascii_of_string s).

(** The keys of the keypad (the #defines of the sketch). *)
Definition MENU_SIZE : Z := 9.
Definition LCD_ROWS : Z := 4.
Definition ENTER : Z := 53.   (* '5' *)
Definition UP : Z := 50.      (* '2' *)
Definition DOWN : Z := 56.    (* '8' *)
Definition RIGHT : Z := 54.   (* '6' *)
Definition LEFT : Z := 52.    (* '4' *)
Definition BACK : Z := 42.    (* '*' *)

(** PROGMEM const char menu[MENU_SIZE][LCD_COLS + 1]. *)
Definition menu : list string :=
  ["0.Playlist"; "1.Play track num"; "2.Record"; "3.Mono/stereo";
   "4.Reset VS1053"; "5.Sinewave test"; "6.Differ. output";
   "7.Turn off chip"; "8.Turn on chip"]%string.

(** ** navMenu and displayMenu *)

(** The switch of navMenu on the global uint8_t counter.  For ENTER the
    sketch calls parseMenu(counter); what that call leaves in counter is the
    parameter [parsed]. *)
Definition navMenu_counter (parsed : Z -> Z) (key counter : Z) : Z :=
  if key =? ENTER then parsed counter
  else if key =? UP then
    u8 (if negb (counter =? 0) then counter - 1 else MENU_SIZE - 1)
  else if key =? LEFT then
    if counter >=? LCD_ROWS - 1 then u8 (counter - (LCD_ROWS - 1))
    else u8 (MENU_SIZE - (LCD_ROWS - 1 - counter))
  else if key =? RIGHT then
    u8 ((counter + LCD_ROWS - 1) mod MENU_SIZE)
  else if key =? DOWN then
    let counter' := u8 (counter + 1) in
    if counter' =? MENU_SIZE then 0 else counter'
  else 0.

(** displayMenu: the three lines shown under "MENU", read from menu[counter],
    menu[(counter + 1) % MENU_SIZE] and menu[(counter + 2) % MENU_SIZE];
    [None] when an index is outside the table. *)
Definition displayMenu (counter : Z) : option (list string) :=
  match nth_error menu (Z.to_nat counter),
        nth_error menu (Z.to_nat ((counter + 1) mod MENU_SIZE)),
        nth_error menu (Z.to_nat ((counter + 2) mod MENU_SIZE)) with
  | Some l2, Some l3, Some l4 => Some [l2; l3; l4]
  | _, _, _ => None
  end.

(** navMenu: the new counter and what displayMenu then shows. *)
Definition navMenu (parsed : Z -> Z) (key counter : Z) : Z * option (list string) :=
  let counter' := navMenu_counter parsed key counter in
  (counter', displayMenu counter').

(** The counter after a sequence of keys. *)
Definition navigate (parsed : Z -> Z) (keys : list Z) (counter : Z) : Z :=
  fold_left (fun c key => fst (navMenu parsed key c)) keys counter.

(** ** The volume keys (play_commands and parseSerial)

    The sketch changes mp3_vol.byte[1], the attenuation in half dB, and
    passes it to setVolume for both channels; [quieter] is the key '7'
    (or '-' on the serial port), otherwise it is '9' (or '+'). *)
Definition change_volume (quieter : bool) (vol : Z) : Z :=
  if quieter then
    if vol >=? 254 then 254 else u8 (vol + 2)
  else
    if vol <=? 2 then 2 else u8 (vol - 2).

(** The volume set in setup, after a sequence of volume keys. *)
Definition volume_after (keys : list bool) : Z :=
  fold_left (fun vol quieter => change_volume quieter vol) keys 80.

(** ** Arrays, C strings and the blocking keypad

    keypad.waitForKey() blocks until a key is pressed; the keys pressed are a
    list, and a function that asks for a key when the list is used up is
    still waiting ([NeedKey]).  [Outside] is an access outside an array. *)
Inductive ui (A : Type) : Type :=
| Done (a : A)
| NeedKey
| Outside.

Arguments Done {A} a.
Arguments NeedKey {A}.
Arguments Outside {A}.

Definition MAX_BUFF : Z := 13.
Definition LINE1 : Z := 0x0.
Definition LINE3 : Z := 0x8.
Definition LINE4 : Z := 0x18.

(** buf[i] and buf[i] = b. *)
Definition peek (buf : list Z) (i : Z) : option Z :=
  if 0 <=? i then nth_error buf (Z.to_nat i) else None.

Definition poke (buf : list Z) (i b : Z) : option (list Z) :=
  if (0 <=? i) && (i <? Z.of_nat (List.length buf))
  then Some (firstn (Z.to_nat i) buf ++ u8 b :: skipn (S (Z.to_nat i)) buf)
  else None.

(** strcpy(buf + i, s): the characters of s, then the NUL. *)
Fixpoint strcpy_at (buf : list Z) (i : Z) (s : list Z) : option (list Z) :=
  match s with
  | [] => poke buf i 0
  | c :: s' =>
      match poke buf i c with
      | Some buf' => strcpy_at buf' (i + 1) s'
      | None => None
      end
  end.

(** The C string held by a buffer: its bytes up to the first NUL. *)
Fixpoint cstring (buf : list Z) : list Z :=
  match buf with
  | [] => []
  | c :: rest => if c =? 0 then [] else c :: cstring rest
  end.

(** A char array on the stack: whatever was there, at the declared size. *)
Definition alloc (n : nat) (junk : list Z) : list Z :=
  firstn n (map u8 junk ++ repeat 0 n).

(** The value of a byte read as a (signed) char. *)
Definition schar (b : Z) : Z := if b <? 128 then b else b - 256.

Definition isDigit (c : Z) : bool := (48 <=? c) && (c <=? 57).

(** The digits of an unsigned number, and the number printed with %03u. *)
Fixpoint decimal_digits (fuel : nat) (n : Z) : list Z :=
  match fuel with
  | O => []
  | S fuel' =>
      if n <? 10 then [48 + n]
      else decimal_digits fuel' (n / 10) ++ [48 + n mod 10]
  end.

Definition decimal (n : Z) : list Z := decimal_digits 10 n.

Definition decimal03 (n : Z) : list Z :=
  repeat 48 (3 - List.length (decimal n)) ++ decimal n.

(** snprintf(buf, size, ...) for a text without NUL: at most size - 1
    characters and the NUL. *)
Definition snprintf (buf : list Z) (size : Z) (text : list Z) : option (list Z) :=
  strcpy_at buf 0 (firstn (Z.to_nat (size - 1)) text).

(** The text of a C string as a Rocq string. *)
Definition text (l : list Z) : string :=
  string_of_list_ascii (map (fun c => Ascii.ascii_of_nat (Z.to_nat c)) l).

(** What a function leaves: the name in its buffer, the keys not yet read,
    the lines written to the LCD with printline. *)
Record named : Type := mkNamed {
  nm_name : list Z;
  nm_keys : list Z;
  nm_lcd : list (Z * list Z)
}.

(** ** parseMenu, case 2: the name of the recording

    The loop over keypad.waitForKey() that fills the digits of
    "track000.ogg": cnt is the local uint8_t, recfn the static uint16_t. *)
Fixpoint record_name_loop (keys filename : list Z) (cnt recfn : Z)
    (lcd : list (Z * list Z)) : ui (named * Z) :=
  match keys with
  | [] => NeedKey
  | key :: keys' =>
      if key =? 0 then Done (mkNamed filename keys' lcd, recfn)
      else if isDigit key then
        match poke filename (5 + cnt) key with
        | None => Outside
        | Some filename' =>
            let cnt' := u8 (cnt + 1) in
            let lcd' := lcd ++ [(LINE3, cstring filename')] in
            if cnt' =? 3 then Done (mkNamed filename' keys' lcd', recfn)
            else record_name_loop keys' filename' cnt' recfn lcd'
        end
      else if key =? 65 then
        match poke filename 5 (recfn / 100 + 48) with
        | None => Outside
        | Some f5 =>
            match poke f5 6 (recfn / 10 + 48) with
            | None => Outside
            | Some f6 =>
                match poke f6 7 (recfn mod 10 + 48) with
                | None => Outside
                | Some f7 =>
                    let recfn' := u16 (recfn + 1) in
                    Done (mkNamed f7 keys' lcd, if recfn' =? 999 then 0 else recfn')
                end
            end
        end
      else if cnt =? 3 then Done (mkNamed filename keys' lcd, recfn)
      else record_name_loop keys' filename cnt recfn lcd
  end.

(** strcpy(filename, "track000.ogg") into char filename[MAX_BUFF], then the
    loop. *)
Definition record_name (junk keys : list Z) (recfn : Z) : ui (named * Z) :=
  match strcpy_at (alloc 13 junk) 0 (codes "track000.ogg") with
  | None => Outside
  | Some filename =>
      record_name_loop keys filename 0 recfn [(LINE2, codes "A (record next)")]
  end.

(** What the menu shows for the result of record. *)
Definition record_report (result : Z) (filename : list Z) : list (Z * list Z) :=
  if result =? 0 then
    [(LINE3, codes "Finished"); (LINE4, cstring filename)]
  else
    [(LINE2, cstring filename); (LINE3, codes "Can't record:");
     (LINE4, if result =? 1 then codes "no plugin"
             else if result =? 2 then codes "can't make file"
             else codes "wrong filename")].

(** The call result = record(filename) of the menu, once the name is there. *)
Definition record_from_menu (e : Env) (fuel : nat) (junk keys : list Z) (recfn : Z)
    (s : St) : ui (res Z) :=
  match record_name junk keys recfn with
  | Done (nm, _) => Done (record e fuel (Some (text (cstring (nm_name nm)))) s)
  | NeedKey => NeedKey
  | Outside => Outside
  end.

(** The name "trackABC" with an extension, as characters. *)
Definition track_name (a b c : Z) (ext : string) : list Z :=
  codes "track" ++ [a; b; c] ++ codes ext.

(** ** createName: the rotating keypad

    The locals of createName: the buffer, int index, byte prevkey, uint8_t
    cnt and limit. *)
Record cn_state : Type := mkCn {
  cn_name : list Z;
  cn_index : Z;
  cn_prevkey : Z;
  cn_cnt : Z;
  cn_limit : Z
}.

(** trackname[index] = f(trackname[index]). *)
Definition update_at (buf : list Z) (i : Z) (f : Z -> Z) : option (list Z) :=
  match peek buf i with
  | Some c => poke buf i (f c)
  | None => None
  end.

(** The if-else chain of the loop body for one key: the new locals, and
    whether the loop is left by the break of key '0'.  [None] is an access
    outside trackname. *)
Definition createName_key (key : Z) (st : cn_state) : option (cn_state * bool) :=
  let name := cn_name st in
  let index := cn_index st in
  if key =? 65 then
    (* upper/lowercase *)
    match peek name index with
    | None => None
    | Some c =>
        if (65 <=? schar c) && (schar c <=? 90) then
          match poke name index (c + 32) with
          | Some name' => Some (mkCn name' index (cn_prevkey st) (cn_cnt st) (cn_limit st), false)
          | None => None
          end
        else if (97 <=? schar c) && (schar c <=? 122) then
          match poke name index (c - 32) with
          | Some name' => Some (mkCn name' index (cn_prevkey st) (cn_cnt st) (cn_limit st), false)
          | None => None
          end
        else Some (st, false)
    end
  else if key =? 49 then
    (* enter character *)
    Some (mkCn name index (if negb (index =? 7) then 0 else cn_prevkey st) 0 (cn_limit st),
          false)
  else if (key >? 49) && (key <=? 57) then
    (* rotating keypad *)
    if negb (key =? cn_prevkey st) then
      let index' := if index <? 7 then index + 1 else index in
      match poke name index' (97 + 3 * (key - 48 - 2)) with
      | None => None
      | Some name1 =>
          match (if key >? 55 then update_at name1 index' (fun c => c + 1)
                 else Some name1) with
          | None => None
          | Some name2 =>
              Some (mkCn name2 index' key 1
                         (if (key =? 55) || (key =? 57) then 3 else 2), false)
          end
      end
    else if cn_cnt st >? cn_limit st then
      match update_at name index (fun c => c - cn_limit st) with
      | Some name' => Some (mkCn name' index (cn_prevkey st) 1 (cn_limit st), false)
      | None => None
      end
    else
      match update_at name index (fun c => c + 1) with
      | Some name' =>
          Some (mkCn name' index (cn_prevkey st) (u8 (cn_cnt st + 1)) (cn_limit st), false)
      | None => None
      end
  else if key =? 35 then
    (* '#': cnt >= 0 holds for the unsigned cnt *)
    if (cn_cnt st >=? 0) && (index <? 7) then
      let index' := if index <? 7 then index + 1 else index in
      match poke name index' 48 with
      | Some name' => Some (mkCn name' index' (cn_prevkey st) (u8 (-1)) (cn_limit st), false)
      | None => None
      end
    else
      match update_at name index (fun c => c + 1) with
      | None => None
      | Some name1 =>
          match peek name1 index with
          | None => None
          | Some c =>
              if schar c >? 57 then
                match poke name1 index 48 with
                | Some name2 =>
                    Some (mkCn name2 index (cn_prevkey st) (cn_cnt st) (cn_limit st), false)
                | None => None
                end
              else Some (mkCn name1 index (cn_prevkey st) (cn_cnt st) (cn_limit st), false)
          end
      end
  else if (key =? 42) && (index >? -1) then
    (* delete character *)
    match poke name index 32 with
    | Some name' => Some (mkCn name' (index - 1) 0 (cn_cnt st) (cn_limit st), false)
    | None => None
    end
  else if (key =? 48) && (index >? -1) then
    Some (mkCn name (index + 1) (cn_prevkey st) (cn_cnt st) (cn_limit st), true)
  else Some (st, false).

(** The while over keypad.waitForKey(): it ends on the break, or when the
    key read is 0. *)
Fixpoint createName_loop (keys : list Z) (st : cn_state) (lcd : list (Z * list Z))
  : ui (cn_state * list Z * list (Z * list Z)) :=
  match keys with
  | [] => NeedKey
  | key :: keys' =>
      if key =? 0 then Done (st, keys', lcd)
      else
        match createName_key key st with
        | None => Outside
        | Some (st', true) => Done (st', keys', lcd)
        | Some (st', false) =>
            createName_loop keys' st' (lcd ++ [(LINE3, cstring (cn_name st'))])
        end
  end.

(** createName(trackname): memset, the loop, then the extension. *)
Definition createName (keys : list Z) (lcd : list (Z * list Z)) : ui named :=
  match createName_loop keys (mkCn (repeat 0 13) (-1) 0 0 2) lcd with
  | NeedKey => NeedKey
  | Outside => Outside
  | Done (st, keys1, lcd1) =>
      let lcd2 := lcd1 ++ [(LINE4, codes "MP3(L)/OGG(R)?")] in
      match keys1 with
      | [] => NeedKey
      | key :: keys2 =>
          match strcpy_at (cn_name st) (cn_index st)
                          (if key =? RIGHT then codes ".ogg" else codes ".mp3") with
          | Some name => Done (mkNamed name keys2 lcd2)
          | None => Outside
          end
      end
  end.

(** ** play_track: the name of the track to play *)

(** The loop that reads the track number: uint16_t tracknum, uint8_t cnt. *)
Fixpoint track_number_loop (keys : list Z) (tracknum cnt : Z) (lcd : list (Z * list Z))
  : ui (Z * list Z * list (Z * list Z)) :=
  match keys with
  | [] => NeedKey
  | key :: keys' =>
      if key =? 0 then Done (tracknum, keys', lcd)
      else
        let digit := isDigit key in
        let tracknum' := if digit then u16 (tracknum * 10 + key - 48) else tracknum in
        let cnt' := if digit then u8 (cnt + 1) else cnt in
        let lcd' := if digit then lcd ++ [(LINE3, decimal tracknum')] else lcd in
        if (key =? 65) || (cnt' =? 3) then Done (tracknum', keys', lcd')
        else track_number_loop keys' tracknum' cnt' lcd'
  end.

(** play_track up to the call of playMP3: the name in trackname. *)
Definition play_track_name (junk keys : list Z) : ui named :=
  match keys with
  | [] => NeedKey
  | key :: keys1 =>
      let lcd := [(LINE3, codes "name(L)/num(R)?"); (LINE3, repeat 32 16)] in
      if key =? LEFT then createName keys1 lcd
      else
        match track_number_loop keys1 0 0 lcd with
        | NeedKey => NeedKey
        | Outside => Outside
        | Done (tracknum, keys2, lcd2) =>
            let tracknum' := if tracknum =? 0 then 1 else tracknum in
            match snprintf (alloc 13 junk) MAX_BUFF
                           (codes "track" ++ decimal03 tracknum' ++ codes ".mp3") with
            | None => Outside
            | Some trackname =>
                let lcd3 := lcd2 ++ [(LINE4, codes "MP3(L)/OGG(R)?")] in
                match keys2 with
                | [] => NeedKey
                | key2 :: keys3 =>
                    if key2 =? RIGHT then
                      match strcpy_at trackname 9 (codes "ogg") with
                      | Some trackname' => Done (mkNamed trackname' keys3 lcd3)
                      | None => Outside
                      end
                    else Done (mkNamed trackname keys3 lcd3)
                end
            end
        end
  end.

(** ** Typing a name

    The table of createName's comment (2 -> abc ... 9 -> wxyz), and the keys
    one presses for a word: each letter is its key pressed once more than
    its place in the key's group, then '1' to enter it. *)
Definition keypad_letters (key : Z) : list Z :=
  nth (Z.to_nat (key - 50))
      (map codes ["abc"; "def"; "ghi"; "jkl"; "mno"; "pqrs"; "tuv"; "wxyz"]%string) [].

Definition letter_of (p : Z * nat) : Z :=
  nth (snd p mod List.length (keypad_letters (fst p))) (keypad_letters (fst p)) 0.

Definition presses (p : Z * nat) : list Z := repeat (fst p) (S (snd p)) ++ [49].

Definition typed (w : list (Z * nat)) : list Z := flat_map presses w.

(** * Reasoning about the sketch *)

Arguments drain_loop : simpl never.
Arguments rec_loop : simpl never.
Arguments wait_dreq : simpl never.
Arguments for_loop : simpl never.

(** Evaluation of the monadic code that leaves the arithmetic alone. *)
Ltac run :=
  cbn -[Z.mul Z.add Z.sub Z.shiftr Z.shiftl Z.land Z.lor Z.div Z.modulo Z.min
        Z.to_nat Z.of_nat Z.testbit firstn skipn repeat];
  change (u8 0) with 0; change (u8 1) with 1; change (u8 2) with 2;
  change (u8 3) with 3;
  cbn -[Z.mul Z.add Z.sub Z.shiftr Z.shiftl Z.land Z.lor Z.div Z.modulo Z.min
        Z.to_nat Z.of_nat Z.testbit firstn skipn repeat].

Ltac split_ifs :=
  repeat (first [ rewrite andb_false_r | rewrite andb_true_r
                | match goal with
                  | |- context [if ?c then _ else _] => destruct c eqn:?
                  end ];
          run).

Ltac unfold_prims :=
  unfold digitalRead_DREQ, millis, printline, keypad_getKey, Serial_available,
    Serial_read, Serial_println, Mp3ReadRegister, Mp3WriteRegister, VSLoadUserCode,
    file_open, file_close, file_write, get_rec_state, set_rec_state, return_,
    out_of_fuel, emit, sample, when, ret.

(** ** What was assigned to rec_state *)

Definition states_of (tr : list event) : list Z :=
  flat_map (fun ev => match ev with EvState v => [v] | _ => [] end) tr.

(** The values assigned to [rec_state] since [record] was entered, in order. *)
Definition visited (s : St) : list Z := states_of (trace s).

(** The assignments so far are 0, 1, ..., rec_state. *)
Definition chain (s : St) : Prop :=
  (rec_state s = 0 /\ visited s = [0]) \/
  (rec_state s = 1 /\ visited s = [0; 1]) \/
  (rec_state s = 2 /\ visited s = [0; 1; 2]) \/
  (rec_state s = 3 /\ visited s = [0; 1; 2; 3]).

(** The stack buffer has its declared size. *)
Definition Len (s : St) : Prop := List.length (wbuff s) = 256%nat.

(** The state after [l] more samples (newest first) and nothing else. *)
Definition more_inputs (l : list src) (s : St) : St :=
  mkSt (rec_state s) (wbuff s) (sink s) (trace s) (l ++ inputs s).

(** A result that is not an access outside [wbuff]. *)
Definition no_fault {A} (r : res A) : Prop :=
  match r with Fault _ => False | _ => True end.

(** The assignments to rec_state form a chain and the buffer keeps its size. *)
Definition good (s : St) : Prop := chain s /\ Len s.

(** A result reached without leaving the buffer, in a good state. *)
Definition sound {A} (r : res A) : Prop := no_fault r /\ good (final r).

(** A device that is ready at once: DREQ reads high whenever it is sampled, and
    no more than 100 ms pass between two consecutive readings of the clock. *)
Definition prompt (e : Env) : Prop :=
  (forall k, dreq e k = true) /\
  (forall k, u32 (u32 (clock e (S k)) - u32 (clock e k)) <= 100).

Lemma states_of_app a b : states_of (a ++ b) = states_of a ++ states_of b.
Proof. apply flat_map_app. Qed.

Lemma alloc_wbuff_length junk : List.length (alloc_wbuff junk) = 256%nat.
Proof.
  unfold alloc_wbuff. rewrite length_firstn, length_app, repeat_length. lia.
Qed.

Lemma repeat_snoc {A} (x : A) n l : repeat x n ++ x :: l = repeat x (S n) ++ l.
Proof. induction n as [|n IH]; cbn; [reflexivity|]. now rewrite IH. Qed.

(** Bit k of a word, the way the sketch tests it: word & (1 << k). *)
Lemma land_bit a k :
  0 <= k -> (Z.land a (Z.shiftl 1 k) =? 0) = negb (Z.testbit a k).
Proof.
  intros Hk. rewrite Z.shiftl_1_l.
  destruct (Z.testbit a k) eqn:Hb; cbn [negb].
  - apply Z.eqb_neq. intros H0.
    assert (Z.testbit (Z.land a (2 ^ k)) k = true) as Ht.
    { rewrite Z.land_spec, Hb, Z.pow2_bits_true by lia. reflexivity. }
    rewrite H0, Z.bits_0 in Ht. discriminate Ht.
  - apply Z.eqb_eq. apply Z.bits_inj'. intros n Hn.
    rewrite Z.land_spec, Z.bits_0, Z.pow2_bits_eqb by lia.
    destruct (Z.eqb_spec k n) as [->|]; [rewrite Hb|]; now rewrite ?andb_false_r.
Qed.

Section Proofs.

Variable e : Env.

(** *** Unfolding equations of the loops *)

Lemma for_loop_S n j body :
  for_loop (S n) j body = (body j ;; for_loop n (j + 1) body).
Proof. reflexivity. Qed.

Lemma wait_dreq_S fuel t :
  wait_dreq e (S fuel) t =
  (d <- digitalRead_DREQ e ;;
   if negb d then wait_dreq e fuel t
   else now <- millis e ;;
        if u32 (now - t) >? 100 then wait_dreq e fuel t else ret tt).
Proof. reflexivity. Qed.

Lemma drain_loop_eq fuel w s :
  drain_loop e fuel w s =
  if drain_guard (rec_state s) w then
    match fuel with
    | O => OutOfFuel s
    | S fuel' => (w' <- drain_body e w ;; drain_loop e fuel' w') s
    end
  else Cont w s.
Proof.
  destruct fuel; unfold drain_loop; fold drain_loop; unfold bind at 1, get_rec_state;
    destruct (drain_guard (rec_state s) w); reflexivity.
Qed.

Lemma rec_loop_eq fuel t s :
  rec_loop e fuel t s =
  if rec_state s <? 3 then
    match fuel with
    | O => OutOfFuel s
    | S fuel' => (loop_body e t ;; rec_loop e fuel' t) s
    end
  else Cont tt s.
Proof.
  destruct fuel; unfold rec_loop; fold rec_loop; unfold bind at 1, get_rec_state;
    destruct (rec_state s <? 3); reflexivity.
Qed.

Lemma drain_body_eq w s :
  drain_body e w s =
  (for_loop 2 0 (fun _ => transfer_pass e (u8 (chunk_words (rec_state s) w / 2))) ;;
   when (chunk_words (rec_state s) w <? 256) (terminal_word e) ;;
   ret (u16 (w - Z.min w 256))) s.
Proof. reflexivity. Qed.

(** *** The transfer of a chunk *)

Lemma stage_word_spec j s :
  0 <= j < 128 -> Len s ->
  exists buf,
    stage_word e j s =
      Cont tt (mkSt (rec_state s) buf (sink s) (trace s) (InReg SCI_HDAT0 :: inputs s)) /\
    List.length buf = 256%nat.
Proof.
  intros Hj HL. unfold Len in HL.
  unfold stage_word, store_wbuff, bind. unfold_prims. run. rewrite HL.
  replace ((0 <=? 2 * j) && (2 * j <? Z.of_nat 256)) with true
    by (symmetry; apply andb_true_iff; split; [apply Z.leb_le | apply Z.ltb_lt]; lia).
  run.
  assert (forall i (l : list Z) b, (i < List.length l)%nat ->
            List.length (firstn i l ++ b :: skipn (S i) l) = List.length l) as Hlen.
  { intros i l b Hi. rewrite length_app, length_firstn. cbn [List.length].
    rewrite length_skipn. lia. }
  rewrite Hlen, HL by lia.
  replace ((0 <=? 2 * j + 1) && (2 * j + 1 <? Z.of_nat 256)) with true
    by (symmetry; apply andb_true_iff; split; [apply Z.leb_le | apply Z.ltb_lt]; lia).
  eexists; split; [reflexivity|].
  rewrite Hlen; rewrite Hlen; lia.
Qed.

Lemma stage_words_spec n : forall j s,
  0 <= j -> j + Z.of_nat n <= 128 -> Len s ->
  exists buf,
    for_loop n j (stage_word e) s =
      Cont tt (mkSt (rec_state s) buf (sink s) (trace s)
                    (repeat (InReg SCI_HDAT0) n ++ inputs s)) /\
    List.length buf = 256%nat.
Proof.
  induction n as [|n IH]; intros j s Hj Hn HL.
  - exists (wbuff s). split; [destruct s; reflexivity | exact HL].
  - rewrite for_loop_S. unfold bind at 1.
    destruct (stage_word_spec j s) as (buf & -> & Hb); [lia | exact HL |].
    destruct (IH (j + 1) (mkSt (rec_state s) buf (sink s) (trace s)
                               (InReg SCI_HDAT0 :: inputs s)))
      as (buf' & -> & Hb'); [lia | lia | exact Hb |].
    exists buf'. split; [|exact Hb']. run. now rewrite repeat_snoc.
Qed.

Lemma transfer_pass_spec n s :
  0 <= n <= 128 -> Len s ->
  exists buf,
    transfer_pass e n s =
      Cont tt (mkSt (rec_state s) buf (sink s ++ firstn (Z.to_nat (2 * n)) buf) (trace s)
                    (repeat (InReg SCI_HDAT0) (Z.to_nat n) ++ inputs s)) /\
    List.length buf = 256%nat.
Proof.
  intros Hn HL. unfold transfer_pass, bind at 1.
  destruct (stage_words_spec (Z.to_nat n) 0 s) as (buf & -> & Hb); [lia | lia | exact HL |].
  exists buf. split; [|exact Hb].
  unfold when, file_write_wbuff, ret. run.
  destruct (Z.eqb_spec n 0) as [->|Hne]; run.
  - now rewrite app_nil_r.
  - rewrite Hb. replace ((0 <=? 2 * n) && (2 * n <=? Z.of_nat 256)) with true
      by (symmetry; apply andb_true_iff; split; apply Z.leb_le; lia).
    reflexivity.
Qed.

(** Both passes of the for over i: 2 * wordsToWrite words and as many pairs
    of bytes. *)
Lemma transfer_spec n s :
  0 <= n <= 128 -> Len s ->
  exists buf bytes,
    for_loop 2 0 (fun _ => transfer_pass e n) s =
      Cont tt (mkSt (rec_state s) buf (sink s ++ bytes) (trace s)
                    (repeat (InReg SCI_HDAT0) (Z.to_nat (2 * n)) ++ inputs s)) /\
    List.length buf = 256%nat /\
    Z.of_nat (List.length bytes) = 4 * n.
Proof.
  intros Hn HL. rewrite !for_loop_S. unfold bind at 1.
  destruct (transfer_pass_spec n s Hn HL) as (b1 & -> & H1).
  unfold bind at 1.
  destruct (transfer_pass_spec n (mkSt (rec_state s) b1 (sink s ++ firstn (Z.to_nat (2 * n)) b1)
      (trace s) (repeat (InReg SCI_HDAT0) (Z.to_nat n) ++ inputs s)) Hn H1) as (b2 & -> & H2).
  exists b2, (firstn (Z.to_nat (2 * n)) b1 ++ firstn (Z.to_nat (2 * n)) b2).
  run. rewrite <- !app_assoc. split; [|split; [exact H2|]].
  - rewrite (app_assoc (repeat _ _)), <- repeat_app.
    replace (Z.to_nat n + Z.to_nat n)%nat with (Z.to_nat (2 * n)) by lia. reflexivity.
  - rewrite length_app, !length_firstn, H1, H2. lia.
Qed.


(** *** The last word *)

Lemma terminal_word_spec s :
  let data := next_read e SCI_HDAT0 0 s in
  let status := next_read e SCI_AICTRL3 1 s in
  terminal_word e s =
    Cont tt (mkSt 3 (wbuff s)
               (sink s ++ u8 (Z.shiftr data 8) ::
                  (if Z.testbit status 2 then [] else [u8 (Z.land data 255)]))
               (trace s ++ [EvState 3])
               (InReg SCI_AICTRL3 :: InReg SCI_AICTRL3 :: InReg SCI_HDAT0 :: inputs s)).
Proof.
  unfold next_read, terminal_word, bind. unfold_prims. run. unfold seen.
  rewrite land_bit by lia. rewrite !Nat.add_0_r, Nat.add_1_r.
  destruct (Z.testbit _ 2); run; rewrite <- ?app_assoc; reflexivity.
Qed.

(** *** The size of a chunk *)

Lemma drain_guard_pos st w : drain_guard st w = true -> 1 <= w.
Proof. unfold drain_guard. destruct (st <? 2); lia. Qed.

Lemma chunk_words_range st w : 1 <= w -> 0 <= chunk_words st w <= 256.
Proof.
  intros Hw. unfold chunk_words, u16.
  destruct ((st =? 2) && (_ =? 0)); [rewrite Z.mod_small|]; lia.
Qed.

Lemma words_per_pass_range st w :
  1 <= w -> u8 (chunk_words st w / 2) = chunk_words st w / 2 /\
            0 <= chunk_words st w / 2 <= 128.
Proof.
  intros Hw. pose proof (chunk_words_range st w Hw) as Hc.
  assert (0 <= chunk_words st w / 2 <= 128) as Hd.
  { split; [apply Z.div_pos; lia | apply Z.div_le_upper_bound; lia]. }
  split; [unfold u8; apply Z.mod_small; lia | exact Hd].
Qed.

(** A full chunk outside state 2; in state 2 a short chunk is the last one. *)
Lemma chunk_words_full st w :
  st < 2 -> drain_guard st w = true -> chunk_words st w = 256.
Proof.
  intros Hst Hg. unfold drain_guard in Hg. unfold chunk_words.
  replace (st <? 2) with true in Hg by lia.
  replace (st =? 2) with false by lia. cbn [andb]. lia.
Qed.

Lemma chunk_words_last st w :
  1 <= w -> st = 2 -> chunk_words st w < 256 -> u16 (w - Z.min w 256) = 0.
Proof.
  intros Hw -> Hc. unfold chunk_words in Hc. cbn [Z.eqb Pos.eqb andb] in Hc.
  destruct (u16 (w - Z.min w 256) =? 0) eqn:E; [lia|].
  replace (Z.min w 256) with w in E by lia. rewrite Z.sub_diag in E. discriminate E.
Qed.

(** *** One drain step *)

Lemma drain_body_spec w s :
  drain_guard (rec_state s) w = true -> Len s ->
  exists s1,
    for_loop 2 0 (fun _ => transfer_pass e (u8 (chunk_words (rec_state s) w / 2))) s
      = Cont tt s1 /\
    Len s1 /\ rec_state s1 = rec_state s /\ trace s1 = trace s /\
    inputs s1 = repeat (InReg SCI_HDAT0) (Z.to_nat (2 * (chunk_words (rec_state s) w / 2)))
                  ++ inputs s /\
    Z.of_nat (List.length (sink s1)) =
      Z.of_nat (List.length (sink s)) + 4 * (chunk_words (rec_state s) w / 2) /\
    drain_body e w s =
      Cont (u16 (w - Z.min w 256))
           (if chunk_words (rec_state s) w <? 256 then final (terminal_word e s1) else s1).
Proof.
  intros Hg HL. apply drain_guard_pos in Hg.
  destruct (words_per_pass_range (rec_state s) w Hg) as [Hu Hr].
  rewrite drain_body_eq, Hu. unfold bind at 1.
  destruct (transfer_spec (chunk_words (rec_state s) w / 2) s Hr HL)
    as (buf & bytes & -> & Hb & Hbytes).
  eexists. split; [reflexivity|]. unfold Len.
  cbn [rec_state wbuff sink trace inputs].
  repeat split; try assumption; try reflexivity.
  - rewrite length_app. lia.
  - unfold bind, when, ret. destruct (_ <? 256); [|reflexivity].
    rewrite terminal_word_spec. reflexivity.
Qed.

(** *** The waits only take samples *)

Lemma wait_dreq_frame fuel : forall t s, exists l,
  wait_dreq e fuel t s = Cont tt (more_inputs l s) \/
  wait_dreq e fuel t s = OutOfFuel (more_inputs l s).
Proof.
  induction fuel as [|fuel IH]; intros t s.
  - exists []. right. destruct s; reflexivity.
  - rewrite wait_dreq_S. unfold bind. unfold_prims. run.
    destruct (dreq e (seen InDreq s)); run.
    + match goal with |- context [if ?c then _ else _] => destruct c end.
      * match goal with |- context [wait_dreq e fuel t ?s1] =>
          destruct (IH t s1) as [l Hl] end.
        exists (l ++ [InClock; InDreq]). unfold more_inputs in *. run.
        rewrite <- app_assoc. exact Hl.
      * exists [InClock; InDreq]. left. reflexivity.
    + match goal with |- context [wait_dreq e fuel t ?s1] =>
        destruct (IH t s1) as [l Hl] end.
      exists (l ++ [InDreq]). unfold more_inputs in *. run.
      rewrite <- app_assoc. exact Hl.
Qed.

(** *** The invariant of the recording loop *)

Lemma drain_body_good w s :
  good s -> drain_guard (rec_state s) w = true -> rec_state s <> 3 ->
  exists w' s', drain_body e w s = Cont w' s' /\ good s' /\ (rec_state s' = 3 -> w' = 0).
Proof.
  intros [Hc HL] Hg H3.
  destruct (drain_body_spec w s Hg HL) as (s1 & _ & HL1 & Hr & Ht & _ & _ & ->).
  eexists _, _. split; [reflexivity|].
  destruct (chunk_words (rec_state s) w <? 256) eqn:Hlt.
  - rewrite terminal_word_spec. unfold good, chain, visited, Len.
    cbn [final rec_state wbuff trace]. rewrite states_of_app, Ht. cbn [states_of flat_map app].
    apply Z.ltb_lt in Hlt. pose proof (drain_guard_pos _ _ Hg) as Hw.
    unfold chain, visited in Hc.
    destruct Hc as [[Hs Hv]|[[Hs Hv]|[[Hs Hv]|[Hs Hv]]]]; try contradiction.
    + rewrite chunk_words_full in Hlt; [lia | lia | exact Hg].
    + rewrite chunk_words_full in Hlt; [lia | lia | exact Hg].
    + rewrite Hv. split; [split; [auto 10 | exact HL1]|].
      intros _. eapply chunk_words_last; eassumption.
  - split; [split; [|exact HL1]|].
    + unfold chain, visited in *. rewrite Hr, Ht. exact Hc.
    + rewrite Hr. intros Hx. contradiction.
Qed.

Lemma drain_loop_good fuel : forall w s,
  good s -> (rec_state s = 3 -> w = 0) -> sound (drain_loop e fuel w s).
Proof.
  induction fuel as [|fuel IH]; intros w s Hgood H3; rewrite drain_loop_eq;
    destruct (drain_guard (rec_state s) w) eqn:Hg; try (split; [exact I | exact Hgood]).
  assert (rec_state s <> 3) as Hn.
  { intros Hs. rewrite Hs, (H3 Hs) in Hg. discriminate Hg. }
  destruct (drain_body_good w s Hgood Hg Hn) as (w' & s' & Hb & Hgood' & H3').
  unfold bind. rewrite Hb. apply IH; assumption.
Qed.

Lemma loop_body_good t s :
  good s -> rec_state s < 3 -> sound (loop_body e t s).
Proof.
  intros [Hc HL] Hlt. unfold loop_body, request_stop. unfold_prims.
  unfold bind. run.
  unfold chain, visited in Hc. unfold Len in HL.
  destruct Hc as [[Hs Hv]|[[Hs Hv]|[[Hs Hv]|[Hs Hv]]]]; [| | |lia];
    rewrite Hs; run;
    split_ifs;
    match goal with
    | |- sound (match drain_loop e ?n ?w ?s1 with _ => _ end) =>
        let H := fresh in
        assert (sound (drain_loop e n w s1)) as H;
        [ apply drain_loop_good;
          [ unfold good, chain, visited, Len; run;
            rewrite ?states_of_app, Hv, ?Hs; run; auto 10
          | run; rewrite ?Hs; intros; discriminate ]
        | destruct (drain_loop e n w s1); exact H ]
    end.
Qed.

Lemma rec_loop_good fuel t : forall s, good s -> sound (rec_loop e fuel t s).
Proof.
  induction fuel as [|fuel IH]; intros s Hg; rewrite rec_loop_eq;
    destruct (rec_state s <? 3) eqn:Hlt; try (split; [exact I | exact Hg]).
  apply Z.ltb_lt in Hlt. pose proof (loop_body_good t s Hg Hlt) as Hb.
  unfold bind. destruct (loop_body e t s); try exact Hb. apply IH, Hb.
Qed.

Ltac step_wait :=
  match goal with
  | |- context [wait_dreq e ?f ?t ?s] =>
      let l := fresh "l" in
      let H := fresh "H" in
      destruct (wait_dreq_frame f t s) as [l [H|H]]; rewrite H; clear H;
      unfold more_inputs; run
  end.

Ltac show_good :=
  unfold sound, good, chain, visited, Len; run;
  rewrite ?alloc_wbuff_length; auto 10.

Lemma record_good fuel filename stale junk :
  sound (record e fuel filename (entry_state stale junk)).
Proof.
  unfold record, entry_state. unfold_prims. unfold bind. run.
  step_wait; [|show_good].
  step_wait; [|show_good].
  destruct (u8 (plugin_result e) =? 0); run; [|show_good].
  destruct filename as [name|]; run; [|show_good].
  destruct (open_ok e name); run; [|show_good].
  step_wait; [|show_good].
  match goal with |- context [rec_loop e fuel ?t ?s] =>
    assert (sound (rec_loop e fuel t s)) as H
      by (apply rec_loop_good; unfold good, chain, visited, Len; run;
          rewrite ?alloc_wbuff_length; auto 10);
    destruct (rec_loop e fuel t s) as [[] s'|c s'|s'|s']; try exact H
  end.
  run. destruct H as [_ [Hc HL]]. unfold sound, good, chain, visited, Len in *. run.
  rewrite !states_of_app. run. rewrite !app_nil_r. auto.
Qed.

(** *** The drain loop terminates on its own bound *)

Lemma u16_le x : 0 <= x -> 0 <= u16 x <= x.
Proof.
  intros Hx. unfold u16. split; [apply Z.mod_pos_bound; lia | apply Z.mod_le; lia].
Qed.

Lemma drain_loop_returns fuel : forall w s,
  Len s -> w < Z.of_nat fuel -> exists w' s', drain_loop e fuel w s = Cont w' s' /\ Len s'.
Proof.
  induction fuel as [|fuel IH]; intros w s HL Hw; rewrite drain_loop_eq;
    destruct (drain_guard (rec_state s) w) eqn:Hg; try (eexists _, _; split; [reflexivity | exact HL]).
  - apply drain_guard_pos in Hg. lia.
  - destruct (drain_body_spec w s Hg HL) as (s1 & _ & HL1 & _ & _ & _ & _ & Hb).
    unfold bind. rewrite Hb. apply drain_guard_pos in Hg.
    apply IH.
    + destruct (_ <? 256); [rewrite terminal_word_spec|]; exact HL1.
    + pose proof (u16_le (w - Z.min w 256)). lia.
Qed.

(** In state 2 the loop runs until nothing is waiting, and ends in state 3. *)
Lemma drain_loop_empties fuel : forall w s,
  rec_state s = 2 -> Len s -> 1 <= w < Z.of_nat fuel ->
  exists s', drain_loop e fuel w s = Cont 0 s' /\ rec_state s' = 3.
Proof.
  induction fuel as [|fuel IH]; intros w s Hs HL Hw; [lia|].
  rewrite drain_loop_eq.
  assert (drain_guard (rec_state s) w = true) as Hg
    by (rewrite Hs; unfold drain_guard; cbn; lia).
  rewrite Hg.
  destruct (drain_body_spec w s Hg HL) as (s1 & _ & HL1 & Hr & _ & _ & _ & Hb).
  unfold bind. rewrite Hb.
  destruct (chunk_words (rec_state s) w <? 256) eqn:Hlt.
  - apply Z.ltb_lt in Hlt. rewrite (chunk_words_last (rec_state s) w) by (assumption || lia).
    rewrite terminal_word_spec. cbn [final]. rewrite drain_loop_eq.
    cbn [rec_state]. eexists. split; reflexivity.
  - apply Z.ltb_ge in Hlt.
    pose proof (u16_le (w - Z.min w 256)) as Hu.
    assert (u16 (w - Z.min w 256) <> 0) as Hne.
    { intros H0. unfold chunk_words in Hlt. rewrite Hs, H0 in Hlt. cbn in Hlt.
      unfold u16 in Hlt. rewrite Z.mod_small in Hlt; lia. }
    apply IH; [congruence | exact HL1 | lia].
Qed.

(** *** One iteration of the recording loop always completes *)

Lemma loop_body_steps t s :
  Len s -> exists s', loop_body e t s = Cont tt s' /\ Len s'.
Proof.
  intros HL. unfold loop_body, request_stop. unfold_prims. unfold bind. run.
  split_ifs;
    match goal with
    | |- context [drain_loop e (S (Z.to_nat ?w)) ?w ?s1] =>
        let H := fresh in
        destruct (drain_loop_returns (S (Z.to_nat w)) w s1) as (w' & s' & H & HL');
        [ exact HL | lia | rewrite H; eexists; split; [reflexivity | exact HL'] ]
    end.
Qed.

(** The recording loop leaves [record] neither by a return nor by a fault. *)
Lemma rec_loop_result fuel t : forall s,
  Len s ->
  exists s', Len s' /\
    ((rec_loop e fuel t s = Cont tt s' /\ 3 <= rec_state s') \/
     (rec_loop e fuel t s = OutOfFuel s' /\ rec_state s' < 3)).
Proof.
  induction fuel as [|fuel IH]; intros s HL; rewrite rec_loop_eq;
    destruct (rec_state s <? 3) eqn:Hlt;
    try (exists s; split; [exact HL|]; (left + right); split; [reflexivity | lia]).
  destruct (loop_body_steps t s HL) as (s1 & Hb & HL1).
  unfold bind. rewrite Hb. apply IH, HL1.
Qed.

(** *** A device that is ready at once *)

Lemma wait_dreq_prompt fuel k s :
  prompt e -> seen InClock s = S k ->
  wait_dreq e (S fuel) (u32 (clock e k)) s = Cont tt (more_inputs [InClock; InDreq] s).
Proof.
  intros [Hd Hc] Hk. rewrite wait_dreq_S. unfold bind. unfold_prims. run.
  rewrite Hd. run. unfold seen in Hk. rewrite Hk.
  specialize (Hc k). replace (_ >? 100) with false by lia. reflexivity.
Qed.

(** *** A device whose DREQ stays low *)

Lemma wait_dreq_low fuel : forall t s,
  (forall k, dreq e k = false) ->
  exists l, wait_dreq e fuel t s = OutOfFuel (more_inputs l s).
Proof.
  induction fuel as [|fuel IH]; intros t s Hd.
  - exists []. destruct s; reflexivity.
  - rewrite wait_dreq_S. unfold bind. unfold_prims. run. rewrite Hd. run.
    match goal with |- context [wait_dreq e fuel t ?s1] =>
      destruct (IH t s1 Hd) as [l Hl] end.
    exists (l ++ [InDreq]). unfold more_inputs in *. run. rewrite <- app_assoc. exact Hl.
Qed.

(** *** A device that has nothing left once it has stopped *)

Lemma loop_body_starved t s :
  (forall k, u16 (reg_in e SCI_HDAT1 k) = 0) -> rec_state s = 2 ->
  exists s', loop_body e t s = Cont tt s' /\ rec_state s' = 2 /\ sink s' = sink s.
Proof.
  intros H0 Hs. unfold loop_body, request_stop. unfold_prims. unfold bind. run.
  rewrite Hs. run. split_ifs; rewrite H0, drain_loop_eq; run;
    eexists; repeat split; reflexivity.
Qed.

Lemma rec_loop_starved fuel t : forall s,
  (forall k, u16 (reg_in e SCI_HDAT1 k) = 0) -> rec_state s = 2 ->
  exists s', rec_loop e fuel t s = OutOfFuel s' /\ rec_state s' = 2 /\ sink s' = sink s.
Proof.
  induction fuel as [|fuel IH]; intros s H0 Hs; rewrite rec_loop_eq, Hs; run.
  - exists s. auto.
  - destruct (loop_body_starved t s H0 Hs) as (s1 & Hb & Hs1 & Hk1).
    unfold bind. rewrite Hb. destruct (IH s1 H0 Hs1) as (s' & Hr & Hs' & Hk').
    exists s'. repeat split; congruence.
Qed.

(** *** The two sketches transfer alike *)

Lemma transfer_pass_unguarded_eq n s :
  0 <= n <= 128 -> Len s -> transfer_pass_unguarded e n s = transfer_pass e n s.
Proof.
  intros Hn HL. unfold transfer_pass_unguarded, transfer_pass, bind.
  destruct (stage_words_spec (Z.to_nat n) 0 s) as (buf & -> & Hb); [lia | lia | exact HL |].
  destruct (Z.eqb_spec n 0) as [->|Hne]; [|reflexivity].
  unfold when, file_write_wbuff, ret. run. rewrite Hb. run. now rewrite app_nil_r.
Qed.

End Proofs.

(** * The properties of [record] *)

Lemma hi_byte_small x : u8 (Z.shiftr (u16 x) 8) = u16 x / 256.
Proof.
  unfold u8, u16. rewrite Z.shiftr_div_pow2 by lia. change (2 ^ 8) with 256.
  pose proof (Z.mod_pos_bound x 65536 ltac:(lia)) as Hx.
  apply Z.mod_small. split; [apply Z.div_pos; lia | apply Z.div_lt_upper_bound; lia].
Qed.

Lemma lo_byte_small x : u8 (Z.land (u16 x) 255) = u16 x mod 256.
Proof.
  unfold u8. change 255 with (Z.ones 8). rewrite Z.land_ones by lia.
  change (2 ^ 8) with 256. apply Z.mod_mod. lia.
Qed.

(** C1. Terminal-word byte parity.  Whenever a drain step takes the
    last-block branch (the chunk it computed is shorter than 256 words), the
    step ends in state 3 and, once the chunk itself is transferred (state
    [s1]), appends to the file the high byte of the next word of HDAT0, and
    after it the low byte exactly when bit 2 of the second of the two
    following reads of SCI_AICTRL3 is clear: one byte when the bit is set,
    two when it is clear. *)
Theorem terminal_word_byte_parity e w s :
  drain_guard (rec_state s) w = true ->
  chunk_words (rec_state s) w < 256 ->
  Len s ->
  exists s1 w' s',
    for_loop 2 0 (fun _ => transfer_pass e (u8 (chunk_words (rec_state s) w / 2))) s
      = Cont tt s1 /\
    drain_body e w s = Cont w' s' /\
    rec_state s' = 3 /\
    let data := next_read e SCI_HDAT0 0 s1 in
    let status := next_read e SCI_AICTRL3 1 s1 in
    sink s' = sink s1 ++ data / 256 :: (if Z.testbit status 2 then [] else [data mod 256]) /\
    List.length (sink s') =
      (List.length (sink s1) + (if Z.testbit status 2 then 1 else 2))%nat.
Proof.
  intros Hg Hlt HL.
  destruct (drain_body_spec e w s Hg HL) as (s1 & Ht & _ & _ & _ & _ & _ & Hb).
  apply Z.ltb_lt in Hlt. rewrite Hlt, terminal_word_spec in Hb. cbn [final] in Hb.
  exists s1. eexists _, _. split; [exact Ht|]. split; [exact Hb|].
  cbn [rec_state sink]. split; [reflexivity|].
  unfold next_read at 1 3. rewrite hi_byte_small, lo_byte_small.
  fold (next_read e SCI_HDAT0 0 s1). split; [reflexivity|].
  rewrite length_app. destruct (Z.testbit _ 2); reflexivity.
Qed.

Lemma bench_prompt keys regs : prompt (bench keys regs).
Proof.
  split; intros k; cbn [dreq clock bench]; [reflexivity|].
  unfold u32. rewrite <- Zminus_mod.
  replace (Z.of_nat (S k) - Z.of_nat k) with 1 by lia. cbn. lia.
Qed.

Lemma terminal_word_byte_parity_witness :
  exists s',
    drain_body scenario_C 40 (state_in 2) = Cont 0 s' /\
    rec_state s' = 3 /\
    List.length (sink s') = (76 + 2)%nat.
Proof.
  destruct (terminal_word_byte_parity scenario_C 40 (state_in 2))
    as (s1 & w' & s' & Ht & Hb & Hs & Hk & Hn).
  - reflexivity.
  - vm_compute. reflexivity.
  - apply alloc_wbuff_length.
  - exists s'. vm_compute in Ht. injection Ht as <-.
    vm_compute in Hb. injection Hb as <- <-. repeat split.
Defined.

(** C4. State-machine monotonicity.  Whatever the keypad, the serial port
    and the device answer, and however long the call has been running, the
    values assigned to rec_state since [record] was entered are 0, 1, ..., k
    in this order, for some k <= 3 which is the current state: the state
    advances by one at a time and never goes back. *)
Theorem rec_state_monotone e fuel filename stale junk :
  let s' := final (record e fuel filename (entry_state stale junk)) in
  exists k : nat,
    (k <= 3)%nat /\
    visited s' = map Z.of_nat (seq 0 (S k)) /\
    rec_state s' = Z.of_nat k.
Proof.
  intros s'. destruct (record_good e fuel filename stale junk) as [_ [Hc _]].
  fold s' in Hc.
  destruct Hc as [[Hs Hv]|[[Hs Hv]|[[Hs Hv]|[Hs Hv]]]]; rewrite Hs, Hv.
  - exists 0%nat. repeat split; lia.
  - exists 1%nat. repeat split; lia.
  - exists 2%nat. repeat split; lia.
  - exists 3%nat. repeat split; lia.
Qed.

(** C6. Drain sub-loop entry guard.  In state 0 or 1 the body of the drain
    loop is not executed when fewer than 256 words are waiting (the loop
    hands back the count and the state untouched) and is executed when at
    least 256 are; in state 2 it is executed whenever at least one word is
    waiting, and then the loop goes on until nothing waits and the state
    is 3. *)
Theorem drain_entry_guard e fuel w s :
  ((rec_state s = 0 \/ rec_state s = 1) ->
     (drain_guard (rec_state s) w = true <-> 256 <= w) /\
     (w < 256 -> drain_loop e fuel w s = Cont w s) /\
     (256 <= w ->
        drain_loop e (S fuel) w s = (w' <- drain_body e w ;; drain_loop e fuel w') s)) /\
  (rec_state s = 2 ->
     (drain_guard (rec_state s) w = true <-> 1 <= w) /\
     (w < 1 -> drain_loop e fuel w s = Cont w s) /\
     (1 <= w ->
        drain_loop e (S fuel) w s = (w' <- drain_body e w ;; drain_loop e fuel w') s) /\
     (1 <= w < Z.of_nat fuel -> Len s ->
        exists s', drain_loop e fuel w s = Cont 0 s' /\ rec_state s' = 3)).
Proof.
  split.
  - intros Hs.
    assert (drain_guard (rec_state s) w = (256 <=? w)) as Hg.
    { unfold drain_guard. destruct Hs as [-> | ->]; cbn; lia. }
    split; [rewrite Hg; lia|]. split; intros Hw; rewrite drain_loop_eq, Hg.
    + replace (256 <=? w) with false by lia. reflexivity.
    + replace (256 <=? w) with true by lia. reflexivity.
  - intros Hs.
    assert (drain_guard (rec_state s) w = (1 <=? w)) as Hg.
    { unfold drain_guard. rewrite Hs. cbn. lia. }
    split; [rewrite Hg; lia|]. split; [|split].
    + intros Hw. rewrite drain_loop_eq, Hg.
      replace (1 <=? w) with false by lia. reflexivity.
    + intros Hw. rewrite drain_loop_eq, Hg.
      replace (1 <=? w) with true by lia. reflexivity.
    + intros Hw HL. apply drain_loop_empties; assumption.
Qed.

Lemma drain_entry_guard_witness :
  drain_loop scenario_C 5 255 (state_in 1) = Cont 255 (state_in 1) /\
  exists s', drain_loop scenario_C 5 1 (state_in 2) = Cont 0 s' /\ rec_state s' = 3.
Proof.
  destruct (drain_entry_guard scenario_C 5 255 (state_in 1)) as [H01 _].
  destruct (drain_entry_guard scenario_C 5 1 (state_in 2)) as [_ H2].
  split.
  - apply H01; [right; reflexivity | lia].
  - apply H2; [reflexivity | lia | apply alloc_wbuff_length].
Defined.

(** C7. Drain-buffer capacity.  In every drain step (the body entered under
    the guard of the loop, the buffer having its 256 bytes), the number of
    words staged before one write to the file, wordsToWrite, is at most 128;
    every index 2*j and 2*j+1 written for j below it lies inside the buffer;
    and the step completes without an access outside the buffer, which keeps
    its size. *)
Theorem drain_buffer_capacity e w s :
  drain_guard (rec_state s) w = true ->
  Len s ->
  let wordsToWrite := u8 (chunk_words (rec_state s) w / 2) in
  0 <= wordsToWrite <= 128 /\
  (forall j, 0 <= j < wordsToWrite ->
     0 <= 2 * j /\ 2 * j + 1 < Z.of_nat (List.length (wbuff s))) /\
  exists w' s', drain_body e w s = Cont w' s' /\ Len s'.
Proof.
  intros Hg HL n.
  destruct (words_per_pass_range (rec_state s) w (drain_guard_pos _ _ Hg)) as [Hu Hr].
  subst n. rewrite Hu. split; [exact Hr|]. split.
  - intros j Hj. rewrite HL. lia.
  - destruct (drain_body_spec e w s Hg HL) as (s1 & _ & HL1 & _ & _ & _ & _ & Hb).
    eexists _, _. split; [exact Hb|].
    destruct (_ <? 256); [rewrite terminal_word_spec|]; exact HL1.
Qed.

Lemma drain_buffer_capacity_witness :
  u8 (chunk_words 0 300 / 2) = 128 /\
  exists w' s', drain_body scenario_C 300 (state_in 0) = Cont w' s' /\ Len s'.
Proof.
  split; [reflexivity|].
  apply (drain_buffer_capacity scenario_C 300 (state_in 0)).
  - reflexivity.
  - apply alloc_wbuff_length.
Defined.

(** C10. Full chunks before the drain.  When the body of the drain loop is
    entered in state 0 or 1, the chunk is exactly 256 words: 256 words are
    read from HDAT0 and nothing else is read, 512 bytes go to the file,
    rec_state is not assigned and keeps its value.  So a drain step entered
    in a state of the recording loop (0, 1 or 2) that takes the last-block
    branch was entered in state 2. *)
Theorem full_chunk_before_draining e w s :
  drain_guard (rec_state s) w = true ->
  Len s ->
  ((rec_state s = 0 \/ rec_state s = 1) ->
     chunk_words (rec_state s) w = 256 /\
     exists s',
       drain_body e w s = Cont (u16 (w - 256)) s' /\
       rec_state s' = rec_state s /\
       trace s' = trace s /\
       inputs s' = repeat (InReg SCI_HDAT0) 256 ++ inputs s /\
       List.length (sink s') = (List.length (sink s) + 512)%nat) /\
  (0 <= rec_state s <= 2 -> chunk_words (rec_state s) w < 256 -> rec_state s = 2).
Proof.
  intros Hg HL. split.
  - intros Hs.
    assert (chunk_words (rec_state s) w = 256) as Hc
      by (apply chunk_words_full; [destruct Hs; lia | exact Hg]).
    split; [exact Hc|].
    destruct (drain_body_spec e w s Hg HL) as (s1 & _ & _ & Hr & Ht & Hi & Hk & Hb).
    rewrite Hc in Hb, Hi, Hk. change (256 / 2) with 128 in Hi, Hk.
    change (Z.to_nat (2 * 128)) with 256%nat in Hi.
    change (256 <? 256) with false in Hb. cbv iota in Hb. exists s1.
    assert (Z.min w 256 = 256) as Hm.
    { unfold drain_guard in Hg. destruct Hs as [H|H]; rewrite H in Hg; cbn in Hg; lia. }
    rewrite Hm in Hb. repeat split; try assumption. lia.
  - intros Hs Hlt.
    destruct (Z.eq_dec (rec_state s) 2) as [|Hne]; [assumption|].
    rewrite chunk_words_full in Hlt; [lia | lia | exact Hg].
Qed.

Lemma full_chunk_before_draining_witness :
  chunk_words 1 300 = 256 /\
  exists s', drain_body scenario_C 300 (state_in 1) = Cont 44 s' /\
             rec_state s' = 1 /\ List.length (sink s') = 512%nat.
Proof.
  destruct (full_chunk_before_draining scenario_C 300 (state_in 1)) as [H _].
  - reflexivity.
  - apply alloc_wbuff_length.
  - destruct H as (Hc & s' & Hb & Hs & _ & _ & Hk); [right; reflexivity|].
    split; [exact Hc|]. exists s'. repeat split; assumption.
Defined.

Ltac through_wait :=
  match goal with
  | |- context [wait_dreq ?e ?f ?t ?s] =>
      let l := fresh "l" in
      let H := fresh "H" in
      destruct (wait_dreq_frame e f t s) as [l [H|H]]; rewrite H; clear H;
      unfold more_inputs; run
  end.

Ltac prompt_wait Hp :=
  match goal with
  | |- context [wait_dreq ?e (S ?f) (u32 (clock ?e ?k)) ?s] =>
      rewrite (wait_dreq_prompt e f k s Hp eq_refl); unfold more_inputs; run
  end.

(** C8. Failure ordering.  The plugin is loaded before the file is opened.
    When the plugin load reports an error, a call that returns returns 1, and
    all it has done is steps 1 to 5: the file was not opened, nothing was
    written to it, and none of SCI_AICTRL1, SCI_AICTRL2, SCI_AICTRL3 and
    SCI_AIADDR was written (SCI_MODE only for the reset of step 3).  When the
    plugin loads and file.open fails, a call that returns returns 2, after
    the plugin load and the attempt to open, with no register write after
    them.  Neither reaches the recording loop.  With a device that is ready
    at once the call does return. *)
Theorem failure_ordering e fuel filename stale junk :
  let r := record e fuel filename (entry_state stale junk) in
  let steps_1_to_5 m :=
    [EvState 0; EvWrite SCI_CLOCKF 0xC000; EvWrite SCI_BASS 0; EvWrite SCI_MODE m;
     EvWrite SCI_WRAMADDR VS1053_INT_ENABLE; EvWrite SCI_WRAM 2;
     EvPlugin "oggenc.053"] in
  (u8 (plugin_result e) <> 0 ->
     (forall c s', r = Returned c s' ->
        c = 1 /\ sink s' = [] /\
        exists m, trace s' = steps_1_to_5 m ++ [EvPrint "Can't load plugin"]) /\
     (prompt e -> (0 < fuel)%nat -> exists s', r = Returned 1 s')) /\
  (forall name,
     u8 (plugin_result e) = 0 -> filename = Some name -> open_ok e name = false ->
     (forall c s', r = Returned c s' ->
        c = 2 /\ sink s' = [] /\
        exists m, trace s' = steps_1_to_5 m ++ [EvOpen name; EvPrint "Can't open file"]) /\
     (prompt e -> (0 < fuel)%nat -> exists s', r = Returned 2 s')).
Proof.
  intros r steps_1_to_5. subst r steps_1_to_5. split.
  - intros Hp. apply Z.eqb_neq in Hp. split.
    + intros c s'. unfold record, entry_state. unfold_prims. unfold bind. run.
      through_wait; [|discriminate]. through_wait; [|discriminate].
      rewrite Hp. run. intros H. injection H as <- <-. run.
      repeat split. eexists. reflexivity.
    + intros Hr Hf. destruct fuel as [|fuel]; [lia|].
      unfold record, entry_state. unfold_prims. unfold bind. run.
      prompt_wait Hr. prompt_wait Hr. rewrite Hp. run. eexists. reflexivity.
  - intros name Hp -> Ho. apply Z.eqb_eq in Hp. split.
    + intros c s'. unfold record, entry_state. unfold_prims. unfold bind. run.
      through_wait; [|discriminate]. through_wait; [|discriminate].
      rewrite Hp. run. rewrite Ho. run. intros H. injection H as <- <-. run.
      repeat split. eexists. reflexivity.
    + intros Hr Hf. destruct fuel as [|fuel]; [lia|].
      unfold record, entry_state. unfold_prims. unfold bind. run.
      prompt_wait Hr. prompt_wait Hr. rewrite Hp. run. rewrite Ho. run.
      eexists. reflexivity.
Qed.

Lemma failure_ordering_witness :
  (exists s', record no_plugin 1 (Some "rec.ogg"%string) (entry_state 3 []) = Returned 1 s') /\
  (exists s', record read_only_card 1 (Some "rec.ogg"%string) (entry_state 3 [])
              = Returned 2 s').
Proof.
  split.
  - destruct (failure_ordering no_plugin 1 (Some "rec.ogg"%string) 3 []) as [H _].
    apply H; [discriminate | apply (bench_prompt (fun _ => 0) (fun _ _ => 0)) | lia].
  - destruct (failure_ordering read_only_card 1 (Some "rec.ogg"%string) 3 []) as [_ H].
    apply (H "rec.ogg"%string); try reflexivity;
      [apply (bench_prompt (fun _ => 0) (fun _ _ => 0)) | lia].
Defined.

(** C9 (as the code has it).  [record] looks at the filename only after the
    plugin has loaded, and tests it against the null pointer, not against the
    empty name.  A call that returns 3 was given a null filename, the plugin
    had loaded, and the file was neither opened nor written; a call with a
    filename that is not null returns 0, 1 or 2 when it returns.  With a
    device that is ready at once, the call returns 3 exactly when the
    filename is null and the plugin loads. *)
Theorem no_filename_given e fuel filename stale junk :
  let r := record e fuel filename (entry_state stale junk) in
  (forall c s', r = Returned c s' ->
     (c = 3 ->
        filename = None /\ u8 (plugin_result e) = 0 /\
        (forall name, ~ In (EvOpen name) (trace s')) /\ sink s' = []) /\
     (filename <> None -> c = 0 \/ c = 1 \/ c = 2)) /\
  (prompt e -> (0 < fuel)%nat ->
     ((exists s', r = Returned 3 s') <-> filename = None /\ u8 (plugin_result e) = 0)).
Proof.
  intros r.
  assert (forall c s', r = Returned c s' ->
     (c = 3 ->
        filename = None /\ u8 (plugin_result e) = 0 /\
        (forall name, ~ In (EvOpen name) (trace s')) /\ sink s' = []) /\
     (filename <> None -> c = 0 \/ c = 1 \/ c = 2)) as Hret.
  { subst r. intros c s'. unfold record, entry_state. unfold_prims. unfold bind. run.
    through_wait; [|discriminate]. through_wait; [|discriminate].
    destruct (u8 (plugin_result e) =? 0) eqn:Hp; run.
    2: { intros H; injection H as <- <-. split; [discriminate | auto]. }
    apply Z.eqb_eq in Hp.
    destruct filename as [name|]; run.
    2: { intros H; injection H as <- <-. run. split; [|congruence].
         intros _. repeat split; try assumption.
         intros name HIn. cbn in HIn. intuition discriminate. }
    destruct (open_ok e name); run.
    2: { intros H; injection H as <- <-. split; [discriminate | auto]. }
    through_wait; [|discriminate].
    match goal with |- context [rec_loop e fuel ?t ?s] =>
      destruct (rec_loop_result e fuel t s) as (s1 & _ & [[-> _]|[-> _]]);
        [unfold Len; run; apply alloc_wbuff_length | | discriminate]
    end.
    run. intros H; injection H as <- <-. split; [discriminate | auto]. }
  split; [exact Hret|].
  intros Hr Hf. split.
  - intros [s' Hs']. destruct (Hret 3 s' Hs') as [H _]. destruct (H eq_refl) as (? & ? & _).
    split; assumption.
  - intros [-> Hp]. apply Z.eqb_eq in Hp. subst r.
    destruct fuel as [|fuel]; [lia|].
    unfold record, entry_state. unfold_prims. unfold bind. run.
    prompt_wait Hr. prompt_wait Hr. rewrite Hp. run. eexists. reflexivity.
Qed.

Lemma no_filename_given_witness :
  exists s', record scenario_A 1 None (entry_state 3 []) = Returned 3 s'.
Proof.
  destruct (no_filename_given scenario_A 1 None 3 []) as [_ H].
  apply H; [apply bench_prompt | lia | split; reflexivity].
Defined.

(** C9 as stated fails: with a null filename and a missing plugin the call
    returns 1, and with an empty filename on a card that refuses it the call
    returns 2; neither returns 3. *)
Lemma no_filename_given_counterexample :
  (exists s', record no_plugin 1 None (entry_state 3 []) = Returned 1 s') /\
  (exists s', record read_only_card 1 (Some EmptyString) (entry_state 3 []) = Returned 2 s').
Proof.
  split; eexists; vm_compute; reflexivity.
Qed.

(** One word left in state 2: nothing is transferred, the word is the last. *)
Lemma drain_body_last_word e s :
  rec_state s = 2 -> drain_body e 1 s = Cont 0 (final (terminal_word e s)).
Proof.
  intros Hs. rewrite drain_body_eq, Hs. change (chunk_words 2 1) with 0.
  change (u8 (0 / 2)) with 0. change (0 <? 256) with true.
  change (u16 (1 - Z.min 1 256)) with 0.
  rewrite !for_loop_S. unfold transfer_pass. change (Z.to_nat 0) with 0%nat.
  change (for_loop 0) with (fun (j : Z) (body : Z -> M unit) => @ret unit tt).
  unfold bind, when, ret. cbn [negb Z.eqb]. rewrite terminal_word_spec. reflexivity.
Qed.

(** C5 (as the code has it).  The plugin loads, the file opens, the device
    is ready at once, a stop request (a key, or 's' on the serial port) is
    there at the first poll and the device acknowledges it at the first look;
    when the count is read again after the acknowledge, one word is waiting,
    the terminal word.  Then [record] returns 0, rec_state went through 0, 1,
    2, 3, and the file holds the high byte of that word, followed by its low
    byte exactly when bit 2 of the second status read is clear: one or two
    bytes. *)
Theorem stop_at_first_poll e fuel name stale junk :
  prompt e ->
  u8 (plugin_result e) = 0 ->
  open_ok e name = true ->
  (u8 (key_in e 0) <> 0 \/ (avail_in e 0 <> 0 /\ serial_in e 0 = 115)) ->
  Z.testbit (u16 (reg_in e SCI_AICTRL3 0)) 1 = true ->
  u16 (reg_in e SCI_HDAT1 1) = 1 ->
  (0 < fuel)%nat ->
  let data := u16 (reg_in e SCI_HDAT0 0) in
  let status := u16 (reg_in e SCI_AICTRL3 2) in
  exists s',
    record e fuel (Some name) (entry_state stale junk) = Returned 0 s' /\
    visited s' = [0; 1; 2; 3] /\
    sink s' = data / 256 :: (if Z.testbit status 2 then [] else [data mod 256]).
Proof.
  intros Hr Hp Ho Hstop Hack Hone Hf data status. subst data status.
  apply Z.eqb_eq in Hp. destruct fuel as [|fuel]; [lia|].
  unfold record, entry_state. unfold_prims. unfold bind. run.
  prompt_wait Hr. prompt_wait Hr. rewrite Hp. run. rewrite Ho. run.
  prompt_wait Hr.
  rewrite rec_loop_eq. run. unfold loop_body, request_stop. unfold_prims. unfold bind. run.
  assert (forall a, Z.testbit a 1 = true -> negb (Z.land a (Z.shiftl 1 1) =? 0) = true) as Hbit
    by (intros a Ha; rewrite land_bit, Ha by lia; reflexivity).
  assert (forall s,
    rec_state s = 2 -> sink s = [] ->
    seen (InReg SCI_HDAT0) s = 0%nat -> seen (InReg SCI_AICTRL3) s = 1%nat ->
    exists s1,
      drain_loop e (S (Z.to_nat 1)) 1 s = Cont 0 s1 /\ rec_state s1 = 3 /\
      trace s1 = trace s ++ [EvState 3] /\
      sink s1 = u16 (reg_in e SCI_HDAT0 0) / 256 ::
                (if Z.testbit (u16 (reg_in e SCI_AICTRL3 2)) 2 then []
                 else [u16 (reg_in e SCI_HDAT0 0) mod 256])) as Hdrain.
  { intros s Hs Hk H0 H3.
    rewrite drain_loop_eq, Hs. change (drain_guard 2 1) with true. cbv iota.
    unfold bind at 1. rewrite (drain_body_last_word e s Hs), terminal_word_spec.
    unfold next_read. rewrite H0, H3, Hk, hi_byte_small, lo_byte_small.
    rewrite drain_loop_eq. cbn [rec_state sink trace app Nat.add].
    change (drain_guard 3 0) with false. cbv iota.
    eexists. repeat split. }
  destruct Hstop as [Hkey | [Hav Hser]].
  - apply Z.eqb_neq in Hkey. rewrite Hkey. run.
    destruct (avail_in e 0 =? 0); run.
    + rewrite (Hbit _ Hack). run. rewrite Hone.
      match goal with |- context [drain_loop e _ 1 ?s] =>
        destruct (Hdrain s) as (s1 & -> & Hs1 & Ht1 & Hk1); try reflexivity end.
      rewrite rec_loop_eq, Hs1. run. eexists. split; [reflexivity|]. split; [|exact Hk1].
      unfold visited. run. cbn [trace] in Ht1. rewrite Ht1, !states_of_app. reflexivity.
    + rewrite andb_false_r. run. rewrite (Hbit _ Hack). run. rewrite Hone.
      match goal with |- context [drain_loop e _ 1 ?s] =>
        destruct (Hdrain s) as (s1 & -> & Hs1 & Ht1 & Hk1); try reflexivity end.
      rewrite rec_loop_eq, Hs1. run. eexists. split; [reflexivity|]. split; [|exact Hk1].
      unfold visited. run. cbn [trace] in Ht1. rewrite Ht1, !states_of_app. reflexivity.
  - apply Z.eqb_neq in Hav.
    destruct (u8 (key_in e 0) =? 0); run; rewrite Hav; run; rewrite ?Hser; run.
    + rewrite (Hbit _ Hack). run. rewrite Hone.
      match goal with |- context [drain_loop e _ 1 ?s] =>
        destruct (Hdrain s) as (s1 & -> & Hs1 & Ht1 & Hk1); try reflexivity end.
      rewrite rec_loop_eq, Hs1. run. eexists. split; [reflexivity|]. split; [|exact Hk1].
      unfold visited. run. cbn [trace] in Ht1. rewrite Ht1, !states_of_app. reflexivity.
    + rewrite ?andb_false_r. run. rewrite (Hbit _ Hack). run. rewrite Hone.
      match goal with |- context [drain_loop e _ 1 ?s] =>
        destruct (Hdrain s) as (s1 & -> & Hs1 & Ht1 & Hk1); try reflexivity end.
      rewrite rec_loop_eq, Hs1. run. eexists. split; [reflexivity|]. split; [|exact Hk1].
      unfold visited. run. cbn [trace] in Ht1. rewrite Ht1, !states_of_app. reflexivity.
Qed.

Lemma stop_at_first_poll_witness :
  exists s',
    record (scenario_A_one_word 0xABCD 4) 1 (Some "rec.ogg"%string) (entry_state 3 [])
      = Returned 0 s' /\
    visited s' = [0; 1; 2; 3] /\
    sink s' = [0xAB].
Proof.
  apply (stop_at_first_poll (scenario_A_one_word 0xABCD 4) 1 "rec.ogg"%string 3 []).
  - apply bench_prompt.
  - reflexivity.
  - reflexivity.
  - left. vm_compute. discriminate.
  - reflexivity.
  - reflexivity.
  - lia.
Defined.

(** What the code does in scenario A as the spec has it: once the stop is
    acknowledged and the device never reports a word, every iteration finds
    the count below the threshold 1 of state 2, so the loop stays in state 2
    and the file stays empty. *)
Lemma record_starves e fuel name stale junk :
  prompt e ->
  u8 (plugin_result e) = 0 ->
  open_ok e name = true ->
  u8 (key_in e 0) <> 0 ->
  Z.testbit (u16 (reg_in e SCI_AICTRL3 0)) 1 = true ->
  (forall k, u16 (reg_in e SCI_HDAT1 k) = 0) ->
  (0 < fuel)%nat ->
  exists s',
    record e fuel (Some name) (entry_state stale junk) = OutOfFuel s' /\
    rec_state s' = 2 /\ sink s' = [].
Proof.
  intros Hr Hp Ho Hkey Hack Hzero Hf.
  apply Z.eqb_eq in Hp. apply Z.eqb_neq in Hkey. destruct fuel as [|fuel]; [lia|].
  unfold record, entry_state. unfold_prims. unfold bind. run.
  prompt_wait Hr. prompt_wait Hr. rewrite Hp. run. rewrite Ho. run.
  prompt_wait Hr.
  rewrite rec_loop_eq. run. unfold loop_body, request_stop. unfold_prims. unfold bind. run.
  rewrite Hkey. run.
  destruct (avail_in e 0 =? 0); run; rewrite ?andb_false_r; run;
    rewrite Hzero; rewrite land_bit, Hack by lia; run;
    rewrite Hzero, drain_loop_eq; run;
    match goal with |- context [rec_loop e fuel ?t ?s] =>
      destruct (rec_loop_starved e fuel t s Hzero eq_refl) as (s' & -> & Hs' & Hk')
    end; exists s'; auto.
Qed.

(** C5 as stated fails: in scenario A [record] never returns. *)
Lemma stop_at_first_poll_counterexample :
  ~ exists fuel c s',
      record scenario_A fuel (Some "rec.ogg"%string) (entry_state 3 []) = Returned c s'.
Proof.
  intros (fuel & c & s' & H). destruct fuel as [|fuel].
  - vm_compute in H. discriminate H.
  - destruct (record_starves scenario_A (S fuel) "rec.ogg"%string 3 []) as (s1 & Hs1 & _);
      try reflexivity; [apply bench_prompt | vm_compute; discriminate | lia |].
    rewrite Hs1 in H. discriminate H.
Qed.

(** C2 (what the code does).  In scenario C the call returns 0 after the
    states 0, 1, 2, 3, and two full chunks are written in state 0.  Of the 40
    words of the remainder the last-block computation keeps 39 for the
    transfer, but the two passes of wordsToRead / 2 = 19 words move only 38
    of them (76 bytes); the 39th is written as the last word, and the 40th is
    never read: 551 words leave the device and the file holds the words
    0..550.  Taken read by read (the count read again after the acknowledge
    is 0), the 40 words are never drained: the loop stays in state 2. *)
Theorem scenario_C_last_chunk :
  chunk_words 2 40 = 39 /\
  2 * u8 (chunk_words 2 40 / 2) = 38 /\
  (exists s2,
     record scenario_C 2 (Some "rec.ogg"%string) (entry_state 3 []) = OutOfFuel s2 /\
     rec_state s2 = 0 /\
     sink s2 = bytes_of (map Z.of_nat (seq 0 512))) /\
  (exists s',
     record scenario_C 3 (Some "rec.ogg"%string) (entry_state 3 []) = Returned 0 s' /\
     visited s' = [0; 1; 2; 3] /\
     seen (InReg SCI_HDAT0) s' = (256 + 256 + 38 + 1)%nat /\
     List.length (sink s') = (512 + 512 + 76 + 2)%nat /\
     sink s' = bytes_of (map Z.of_nat (seq 0 551))) /\
  (exists s',
     record scenario_C_by_read 50 (Some "rec.ogg"%string) (entry_state 3 []) = OutOfFuel s' /\
     rec_state s' = 2 /\
     List.length (sink s') = (512 + 512)%nat).
Proof.
  split; [reflexivity|]. split; [reflexivity|]. split; [|split].
  - eexists. split; [vm_compute; reflexivity|]. split; vm_compute; reflexivity.
  - eexists. split; [vm_compute; reflexivity|]. repeat split; vm_compute; reflexivity.
  - eexists. split; [vm_compute; reflexivity|]. split; vm_compute; reflexivity.
Qed.

(** C3 (what the code does).  The wait loops while DREQ is low or more than
    100 ms have passed.  With DREQ stuck low [record] is still in its first
    wait whatever the fuel: only the clock register has been written.  And
    when DREQ is high but the board first looks at the clock after the
    deadline, the call is still in that wait a thousand polls (200 s)
    later. *)
Theorem dreq_wait_unbounded :
  (forall fuel filename stale junk,
     exists s',
       record dreq_stuck_low fuel filename (entry_state stale junk) = OutOfFuel s' /\
       trace s' = [EvState 0; EvWrite SCI_CLOCKF 0xC000]) /\
  (exists s',
     record dreq_seen_late 1000 (Some "rec.ogg"%string) (entry_state 3 []) = OutOfFuel s' /\
     trace s' = [EvState 0; EvWrite SCI_CLOCKF 0xC000] /\
     seen InDreq s' = 1000%nat /\
     Forall (fun k => dreq dreq_seen_late k = true) (seq 0 1000)).
Proof.
  split.
  - intros fuel filename stale junk.
    unfold record, entry_state. unfold_prims. unfold bind. run.
    match goal with |- context [wait_dreq ?e ?f ?t ?s] =>
      destruct (wait_dreq_low e f t s (fun _ => eq_refl)) as [l ->] end.
    eexists. split; reflexivity.
  - eexists. split; [vm_compute; reflexivity|]. split; [reflexivity|].
    split; [vm_compute; reflexivity|].
    apply Forall_forall. intros k _. reflexivity.
Qed.

(** The buffer is never left.  Whatever the collaborators answer and however
    long the call runs, [record] makes no access outside the 256 bytes of
    wbuff, and the buffer keeps its size. *)
Theorem record_stays_in_wbuff e fuel filename stale junk :
  no_fault (record e fuel filename (entry_state stale junk)) /\
  Len (final (record e fuel filename (entry_state stale junk))).
Proof.
  destruct (record_good e fuel filename stale junk) as [Hn [_ HL]].
  split; assumption.
Qed.

(** * The menus *)

Lemma navMenu_counter_valid parsed key counter :
  (forall c, 0 <= c < MENU_SIZE -> 0 <= parsed c < MENU_SIZE) ->
  0 <= counter < MENU_SIZE ->
  0 <= navMenu_counter parsed key counter < MENU_SIZE.
Proof.
  unfold navMenu_counter, MENU_SIZE, LCD_ROWS, u8. intros Hp Hc.
  destruct (key =? ENTER); [apply Hp, Hc|].
  destruct (key =? UP).
  { destruct (Z.eqb_spec counter 0); cbn [negb]; rewrite Z.mod_small; lia. }
  destruct (key =? LEFT).
  { destruct (counter >=? 4 - 1) eqn:E; rewrite Z.mod_small; lia. }
  destruct (key =? RIGHT).
  { pose proof (Z.mod_pos_bound (counter + 4 - 1) 9 ltac:(lia)).
    rewrite Z.mod_small; lia. }
  destruct (key =? DOWN); [|lia].
  rewrite Z.mod_small by lia. destruct (Z.eqb_spec (counter + 1) 9); lia.
Qed.

Lemma displayMenu_valid counter :
  0 <= counter < MENU_SIZE ->
  exists l2 l3 l4,
    displayMenu counter = Some [l2; l3; l4] /\
    nth_error menu (Z.to_nat counter) = Some l2.
Proof.
  unfold MENU_SIZE. intros Hc.
  assert (counter = 0 \/ counter = 1 \/ counter = 2 \/ counter = 3 \/ counter = 4 \/
          counter = 5 \/ counter = 6 \/ counter = 7 \/ counter = 8) as H by lia.
  repeat destruct H as [H | H]; subst counter; eexists _, _, _; split; reflexivity.
Qed.

(** The menu never leaves its table.  From the entry shown at start (counter
    0), whatever keys are pressed, counter stays an index of the menu (below
    MENU_SIZE) and displayMenu reads its three lines inside the table,
    provided parseMenu leaves in counter an index of the menu. *)
Theorem menu_stays_in_table parsed keys :
  (forall c, 0 <= c < MENU_SIZE -> 0 <= parsed c < MENU_SIZE) ->
  0 <= navigate parsed keys 0 < MENU_SIZE /\
  exists l2 l3 l4, displayMenu (navigate parsed keys 0) = Some [l2; l3; l4].
Proof.
  intros Hp.
  assert (forall c, 0 <= c < MENU_SIZE -> 0 <= navigate parsed keys c < MENU_SIZE) as H.
  { unfold navigate. induction keys as [|k keys IH]; intros c Hc; cbn [fold_left].
    - exact Hc.
    - apply IH. cbn [navMenu fst]. apply navMenu_counter_valid; assumption. }
  specialize (H 0 ltac:(unfold MENU_SIZE; lia)). split; [exact H|].
  destruct (displayMenu_valid _ H) as (l2 & l3 & l4 & Hd & _). eauto.
Qed.

Lemma menu_stays_in_table_witness :
  navigate (fun c => c) [DOWN; DOWN; LEFT; UP; RIGHT; 65] 0 = 0 /\
  exists l2 l3 l4,
    displayMenu (navigate (fun c => c) [UP; LEFT] 0) = Some [l2; l3; l4].
Proof.
  split; [reflexivity|].
  apply (menu_stays_in_table (fun c => c) [UP; LEFT]). intros c Hc. exact Hc.
Defined.

(** The movement keys undo each other.  On an index of the menu, DOWN after
    UP and UP after DOWN give the entry back (with the wrap between the
    first and the last entry), and so do RIGHT after LEFT and LEFT after
    RIGHT, which move by a page of three; three pages are a full turn. *)
Theorem menu_keys_inverse parsed counter :
  0 <= counter < MENU_SIZE ->
  let go key c := navMenu_counter parsed key c in
  go DOWN (go UP counter) = counter /\
  go UP (go DOWN counter) = counter /\
  go RIGHT (go LEFT counter) = counter /\
  go LEFT (go RIGHT counter) = counter /\
  go RIGHT (go RIGHT (go RIGHT counter)) = counter.
Proof.
  intros Hc go. subst go. unfold MENU_SIZE in Hc.
  assert (counter = 0 \/ counter = 1 \/ counter = 2 \/ counter = 3 \/ counter = 4 \/
          counter = 5 \/ counter = 6 \/ counter = 7 \/ counter = 8) as H by lia.
  repeat destruct H as [H | H]; subst counter; repeat split; reflexivity.
Qed.

Lemma menu_keys_inverse_witness :
  navMenu_counter (fun c => c) DOWN (navMenu_counter (fun c => c) UP 0) = 0 /\
  navMenu_counter (fun c => c) RIGHT (navMenu_counter (fun c => c) LEFT 1) = 1.
Proof.
  destruct (menu_keys_inverse (fun c => c) 0) as (H1 & _); [unfold MENU_SIZE; lia|].
  destruct (menu_keys_inverse (fun c => c) 1) as (_ & _ & H3 & _); [unfold MENU_SIZE; lia|].
  split; assumption.
Defined.

Lemma change_volume_even quieter vol :
  2 <= vol <= 254 -> vol mod 2 = 0 ->
  2 <= change_volume quieter vol <= 254 /\ change_volume quieter vol mod 2 = 0.
Proof.
  intros Hr He. unfold change_volume, u8.
  destruct quieter.
  - destruct (vol >=? 254) eqn:E; [split; [lia | reflexivity]|].
    rewrite Z.geb_leb in E. apply Z.leb_gt in E.
    assert (vol <> 253) by (intros ->; discriminate He).
    rewrite Z.mod_small by lia. split; [lia|].
    rewrite <- Z.add_mod_idemp_l, He by lia. reflexivity.
  - destruct (vol <=? 2) eqn:E; [split; [lia | reflexivity]|].
    apply Z.leb_gt in E.
    assert (vol <> 3) by (intros ->; discriminate He).
    rewrite Z.mod_small by lia. split; [lia|].
    rewrite Zminus_mod, He. reflexivity.
Qed.

(** The volume never wraps.  From the volume of setup (80), after any
    sequence of volume keys the attenuation is even (whole dB) and between 2
    and 254: it stops at both ends instead of wrapping from quiet to loud;
    and each key changes it by at most 2 in its own direction. *)
Theorem volume_never_wraps keys :
  2 <= volume_after keys <= 254 /\
  volume_after keys mod 2 = 0 /\
  volume_after keys <= change_volume true (volume_after keys) <= volume_after keys + 2 /\
  volume_after keys - 2 <= change_volume false (volume_after keys) <= volume_after keys.
Proof.
  assert (forall v, 2 <= v <= 254 -> v mod 2 = 0 ->
            2 <= fold_left (fun vol q => change_volume q vol) keys v <= 254 /\
            fold_left (fun vol q => change_volume q vol) keys v mod 2 = 0) as H.
  { induction keys as [|q keys IH]; intros v Hr He; cbn [fold_left]; [auto|].
    destruct (change_volume_even q v Hr He). apply IH; assumption. }
  destruct (H 80 ltac:(lia) eq_refl) as [Hr He]. fold (volume_after keys) in Hr, He.
  split; [exact Hr|]. split; [exact He|].
  unfold change_volume, u8.
  assert (volume_after keys <> 253) by (intros E; rewrite E in He; discriminate He).
  split.
  - destruct (_ >=? 254) eqn:E; [lia|].
    rewrite Z.geb_leb in E. apply Z.leb_gt in E. rewrite Z.mod_small; lia.
  - destruct (_ <=? 2) eqn:E; [lia|].
    apply Z.leb_gt in E. rewrite Z.mod_small; lia.
Qed.

(** Where the range check of the volume falls short: it tests for 254 and
    above, so from the odd value 253 the quieter key reaches 255; the
    volume is kept in range by its parity. *)
Lemma change_volume_odd : change_volume true 253 = 255.
Proof. reflexivity. Qed.

(** ** Arrays and C strings *)

Lemma poke_spec buf i b :
  0 <= i < Z.of_nat (List.length buf) ->
  poke buf i b = Some (firstn (Z.to_nat i) buf ++ u8 b :: skipn (S (Z.to_nat i)) buf).
Proof.
  intros Hi. unfold poke.
  replace ((0 <=? i) && (i <? Z.of_nat (List.length buf))) with true; [reflexivity|].
  symmetry. apply andb_true_iff. split; [apply Z.leb_le | apply Z.ltb_lt]; lia.
Qed.

Lemma poke_outside buf i b :
  i < 0 \/ Z.of_nat (List.length buf) <= i -> poke buf i b = None.
Proof.
  intros Hi. unfold poke.
  replace ((0 <=? i) && (i <? Z.of_nat (List.length buf))) with false; [reflexivity|].
  symmetry. apply andb_false_iff. destruct Hi; [left; apply Z.leb_gt | right; apply Z.ltb_ge]; lia.
Qed.

Lemma poke_length buf i b buf' :
  poke buf i b = Some buf' -> List.length buf' = List.length buf.
Proof.
  unfold poke. destruct ((0 <=? i) && (i <? Z.of_nat (List.length buf))) eqn:E; [|discriminate].
  apply andb_true_iff in E. destruct E as [H0 H1].
  apply Z.leb_le in H0. apply Z.ltb_lt in H1.
  intros H. injection H as <-.
  rewrite length_app, length_firstn. cbn [List.length].
  change (match buf with [] => [] | _ :: l => skipn (Z.to_nat i) l end)
    with (skipn (S (Z.to_nat i)) buf).
  rewrite length_skipn. lia.
Qed.

(** strcpy inside the array: the bytes before stay, the text and its NUL
    follow, the bytes after stay. *)
Lemma strcpy_at_spec s : forall buf i,
  0 <= i -> i + Z.of_nat (List.length s) < Z.of_nat (List.length buf) ->
  strcpy_at buf i s =
    Some (firstn (Z.to_nat i) buf ++ map u8 s ++ 0 ::
          skipn (S (Z.to_nat i + List.length s)) buf).
Proof.
  induction s as [|c s IH]; intros buf i Hi Hlen; cbn [strcpy_at List.length map app] in *.
  - rewrite poke_spec by lia. rewrite Nat.add_0_r. reflexivity.
  - rewrite poke_spec by lia.
    assert (List.length (firstn (Z.to_nat i) buf) = Z.to_nat i) as Hf
      by (rewrite length_firstn; lia).
    rewrite IH.
    + f_equal. replace (Z.to_nat (i + 1)) with (S (Z.to_nat i)) by lia.
      rewrite (firstn_app (S (Z.to_nat i))), Hf.
      replace (S (Z.to_nat i) - Z.to_nat i)%nat with 1%nat by lia.
      rewrite firstn_all2 by lia. cbn [firstn]. rewrite <- app_assoc. cbn [app].
      do 3 f_equal.
      rewrite skipn_app, Hf.
      replace (S (S (Z.to_nat i) + List.length s) - Z.to_nat i)%nat
        with (S (S (List.length s))) by lia.
      rewrite (skipn_all2 (firstn _ _)) by lia. cbn [app].
      rewrite skipn_cons, skipn_skipn. do 2 f_equal. lia.
    + lia.
    + rewrite length_app, Hf. cbn [List.length]. rewrite length_skipn. lia.
Qed.

Lemma strcpy_at_outside s : forall buf i,
  0 <= i -> Z.of_nat (List.length buf) <= i + Z.of_nat (List.length s) ->
  strcpy_at buf i s = None.
Proof.
  induction s as [|c s IH]; intros buf i Hi Hlen; cbn [strcpy_at List.length] in *.
  - apply poke_outside. lia.
  - destruct (poke buf i c) as [buf'|] eqn:E; [|reflexivity].
    apply IH; [lia|]. rewrite (poke_length _ _ _ _ E). lia.
Qed.

Lemma alloc_length n junk : List.length (alloc n junk) = n.
Proof. unfold alloc. rewrite length_firstn, length_app, repeat_length. lia. Qed.

(** A list of thirteen elements, spelled out. *)
Lemma length_13 (l : list Z) :
  List.length l = 13%nat ->
  exists a b c d e f g h i j k m n, l = [a; b; c; d; e; f; g; h; i; j; k; m; n].
Proof.
  intros H.
  do 13 (destruct l as [|? l]; [discriminate H|]).
  destruct l; [|discriminate H]. repeat eexists.
Qed.

(** The code of record for a filename that is not null. *)
Lemma record_code_named e fuel name stale junk c s' :
  record e fuel (Some name) (entry_state stale junk) = Returned c s' ->
  c = 0 \/ c = 1 \/ c = 2.
Proof.
  unfold record, entry_state. unfold_prims. unfold bind. run.
  through_wait; [|discriminate]. through_wait; [|discriminate].
  destruct (u8 (plugin_result e) =? 0); run.
  2: { intros H; injection H as <- <-. auto. }
  destruct (open_ok e name); run.
  2: { intros H; injection H as <- <-. auto. }
  through_wait; [|discriminate].
  match goal with |- context [rec_loop e fuel ?t ?s] =>
    destruct (rec_loop_result e fuel t s) as (s1 & _ & [[-> _]|[-> _]]);
      [unfold Len; run; apply alloc_wbuff_length | | discriminate]
  end.
  run. intros H; injection H as <- <-. auto.
Qed.

(** ** The name of the recording *)

Lemma isDigit_range c : isDigit c = true -> 48 <= c <= 57.
Proof. unfold isDigit. intros H. apply andb_true_iff in H. lia. Qed.

Lemma record_name_start junk :
  strcpy_at (alloc 13 junk) 0 (codes "track000.ogg") = Some (track_name 48 48 48 ".ogg" ++ [0]).
Proof.
  rewrite strcpy_at_spec by (rewrite ?alloc_length; cbn; lia).
  rewrite skipn_all2 by (rewrite alloc_length; cbn; lia). reflexivity.
Qed.

Lemma record_name_loop_shape keys : forall a b c cnt recfn lcd,
  0 <= cnt <= 2 -> 0 <= recfn < 999 ->
  match record_name_loop keys (track_name a b c ".ogg" ++ [0]) cnt recfn lcd with
  | Outside => False
  | NeedKey => True
  | Done (nm, recfn') =>
      (exists a' b' c', nm_name nm = track_name a' b' c' ".ogg" ++ [0]) /\
      0 <= recfn' < 999
  end.
Proof.
  induction keys as [|key keys IH]; intros a b c cnt recfn lcd Hc Hr;
    cbn [record_name_loop]; [exact I|].
  destruct (key =? 0); [split; [exists a, b, c; reflexivity | exact Hr]|].
  destruct (isDigit key) eqn:Hd.
  - assert (cnt = 0 \/ cnt = 1 \/ cnt = 2) as Hcnt by lia.
    destruct Hcnt as [-> | [-> | ->]];
      [ change (poke (track_name a b c ".ogg" ++ [0]) (5 + 0) key)
          with (Some (track_name (u8 key) b c ".ogg" ++ [0]))
      | change (poke (track_name a b c ".ogg" ++ [0]) (5 + 1) key)
          with (Some (track_name a (u8 key) c ".ogg" ++ [0]))
      | change (poke (track_name a b c ".ogg" ++ [0]) (5 + 2) key)
          with (Some (track_name a b (u8 key) ".ogg" ++ [0])) ];
      cbv iota beta zeta.
    + change (u8 (0 + 1)) with 1. cbv iota. apply IH; lia.
    + change (u8 (1 + 1)) with 2. cbv iota. apply IH; lia.
    + change (u8 (2 + 1) =? 3) with true. cbv iota.
      split; [eexists _, _, _; reflexivity | exact Hr].
  - destruct (key =? 65).
    + change (poke (track_name a b c ".ogg" ++ [0]) 5 (recfn / 100 + 48))
        with (Some (track_name (u8 (recfn / 100 + 48)) b c ".ogg" ++ [0])).
      cbv iota beta.
      change (poke (track_name (u8 (recfn / 100 + 48)) b c ".ogg" ++ [0]) 6 (recfn / 10 + 48))
        with (Some (track_name (u8 (recfn / 100 + 48)) (u8 (recfn / 10 + 48)) c ".ogg" ++ [0])).
      cbv iota beta.
      change (poke (track_name (u8 (recfn / 100 + 48)) (u8 (recfn / 10 + 48)) c ".ogg" ++ [0])
                7 (recfn mod 10 + 48))
        with (Some (track_name (u8 (recfn / 100 + 48)) (u8 (recfn / 10 + 48))
                      (u8 (recfn mod 10 + 48)) ".ogg" ++ [0])).
      cbv iota beta zeta.
      split; [eexists _, _, _; reflexivity|]. unfold u16.
      rewrite Z.mod_small by lia. destruct (Z.eqb_spec (recfn + 1) 999); lia.
    + replace (cnt =? 3) with false by lia. apply IH; assumption.
Qed.

(** The name of the recording stays in its buffer.  Whatever keys are
    pressed in the record menu and whatever the counter of recordings below
    999, the loop writes only the three characters after "track": it never
    indexes filename outside its 13 bytes, the name it hands to record is
    "track", three characters, ".ogg" and the NUL, and the counter stays
    below 999. *)
Theorem record_name_in_bounds junk keys recfn :
  0 <= recfn < 999 ->
  record_name junk keys recfn <> Outside /\
  forall nm recfn',
    record_name junk keys recfn = Done (nm, recfn') ->
    (exists a b c, nm_name nm = track_name a b c ".ogg" ++ [0]) /\
    0 <= recfn' < 999.
Proof.
  intros Hr. unfold record_name. rewrite record_name_start.
  pose proof (record_name_loop_shape keys 48 48 48 0 recfn
                [(LINE2, codes "A (record next)")] ltac:(lia) Hr) as H.
  destruct (record_name_loop _ _ _ _ _) as [[nm r']| |]; [| |contradiction].
  - split; [discriminate|]. intros nm0 r0 E. injection E as <- <-. exact H.
  - split; [discriminate|]. intros nm0 r0 E. discriminate E.
Qed.

Lemma record_name_in_bounds_witness :
  0 <= 7 < 999 /\ record_name [] [49; 50; 51] 7 <> Outside.
Proof.
  split; [lia|]. apply (record_name_in_bounds [] [49; 50; 51] 7). lia.
Defined.

Lemma decimal03_spec n :
  0 <= n < 1000 ->
  decimal03 n = [48 + n / 100; 48 + (n / 10) mod 10; 48 + n mod 10].
Proof.
  intros Hn. unfold decimal03, decimal.
  assert (n < 10 \/ 10 <= n < 100 \/ 100 <= n) as [H | [H | H]] by lia.
  - cbn [decimal_digits]. replace (n <? 10) with true by lia.
    cbn [List.length Nat.sub repeat app].
    rewrite (Z.div_small n 100), (Z.div_small n 10), (Z.mod_small n 10) by lia.
    reflexivity.
  - cbn [decimal_digits]. replace (n <? 10) with false by lia.
    assert (0 <= n / 10 < 10) as Hq
      by (split; [apply Z.div_pos; lia | apply Z.div_lt_upper_bound; lia]).
    replace (n / 10 <? 10) with true by lia.
    cbn [List.length Nat.sub repeat app].
    rewrite (Z.div_small n 100), (Z.mod_small (n / 10) 10) by lia. reflexivity.
  - cbn [decimal_digits]. replace (n <? 10) with false by lia.
    assert (10 <= n / 10 < 100) as Hq
      by (split; [apply Z.div_le_lower_bound; lia | apply Z.div_lt_upper_bound; lia]).
    replace (n / 10 <? 10) with false by lia.
    assert (0 <= n / 10 / 10 < 10) as Hq2
      by (split; [apply Z.div_pos; lia | apply Z.div_lt_upper_bound; lia]).
    replace (n / 10 / 10 <? 10) with true by lia.
    cbn [List.length Nat.sub repeat app].
    rewrite Z.div_div by lia. reflexivity.
Qed.

Lemma record_name_loop_digit key keys a b c recfn lcd :
  isDigit key = true ->
  (exists lcd',
     record_name_loop (key :: keys) (track_name a b c ".ogg" ++ [0]) 0 recfn lcd =
     record_name_loop keys (track_name key b c ".ogg" ++ [0]) 1 recfn lcd') /\
  (exists lcd',
     record_name_loop (key :: keys) (track_name a b c ".ogg" ++ [0]) 1 recfn lcd =
     record_name_loop keys (track_name a key c ".ogg" ++ [0]) 2 recfn lcd') /\
  (exists lcd',
     record_name_loop (key :: keys) (track_name a b c ".ogg" ++ [0]) 2 recfn lcd =
     Done (mkNamed (track_name a b key ".ogg" ++ [0]) keys lcd', recfn)).
Proof.
  intros Hd. pose proof (isDigit_range _ Hd) as Hk.
  cbn [record_name_loop]. replace (key =? 0) with false by lia. rewrite Hd.
  assert (u8 key = key) as Hu by (unfold u8; apply Z.mod_small; lia).
  change (poke (track_name a b c ".ogg" ++ [0]) (5 + 0) key)
    with (Some (track_name (u8 key) b c ".ogg" ++ [0])).
  change (poke (track_name a b c ".ogg" ++ [0]) (5 + 1) key)
    with (Some (track_name a (u8 key) c ".ogg" ++ [0])).
  change (poke (track_name a b c ".ogg" ++ [0]) (5 + 2) key)
    with (Some (track_name a b (u8 key) ".ogg" ++ [0])).
  rewrite Hu. repeat split; eexists; reflexivity.
Qed.

(** Automatic numbering.  When 'A' is pressed in the record menu, after at
    most two digits, the three characters of the name are recfn / 100 + '0',
    recfn / 10 + '0' and recfn % 10 + '0', and the counter goes to the next
    number, 998 being followed by 0.  For a counter below 100 these are its
    three decimal digits; from 100 on the middle character is above '9': the
    tens are not reduced modulo 10. *)
Theorem record_name_automatic junk digits rest recfn :
  Forall (fun key => isDigit key = true) digits ->
  (List.length digits <= 2)%nat ->
  0 <= recfn < 999 ->
  (exists lcd,
     record_name junk (digits ++ 65 :: rest) recfn =
       Done (mkNamed (track_name (recfn / 100 + 48) (recfn / 10 + 48) (recfn mod 10 + 48)
                                 ".ogg" ++ [0])
                     rest lcd,
             if recfn =? 998 then 0 else recfn + 1)) /\
  (recfn < 100 ->
     [recfn / 100 + 48; recfn / 10 + 48; recfn mod 10 + 48] = decimal03 recfn) /\
  (100 <= recfn -> isDigit (recfn / 10 + 48) = false).
Proof.
  intros Hd Hl Hr. split; [|split].
  - assert (forall a b c lcd, exists lcd',
      record_name_loop (65 :: rest) (track_name a b c ".ogg" ++ [0]) (Z.of_nat (List.length digits))
        recfn lcd =
      Done (mkNamed (track_name (recfn / 100 + 48) (recfn / 10 + 48) (recfn mod 10 + 48)
                                ".ogg" ++ [0]) rest lcd',
            if recfn =? 998 then 0 else recfn + 1)) as Hauto.
    { intros a b c lcd. cbn [record_name_loop]. cbn [Z.eqb Pos.eqb isDigit Z.leb Z.compare
        Pos.compare Pos.compare_cont andb].
      assert (0 <= recfn / 100 < 10) as H100
        by (split; [apply Z.div_pos; lia | apply Z.div_lt_upper_bound; lia]).
      assert (0 <= recfn / 10 < 100) as H10
        by (split; [apply Z.div_pos; lia | apply Z.div_lt_upper_bound; lia]).
      pose proof (Z.mod_pos_bound recfn 10 ltac:(lia)) as H1.
      change (poke (track_name a b c ".ogg" ++ [0]) 5 (recfn / 100 + 48))
        with (Some (track_name (u8 (recfn / 100 + 48)) b c ".ogg" ++ [0])).
      cbv iota beta.
      change (poke (track_name (u8 (recfn / 100 + 48)) b c ".ogg" ++ [0]) 6 (recfn / 10 + 48))
        with (Some (track_name (u8 (recfn / 100 + 48)) (u8 (recfn / 10 + 48)) c ".ogg" ++ [0])).
      cbv iota beta.
      change (poke (track_name (u8 (recfn / 100 + 48)) (u8 (recfn / 10 + 48)) c ".ogg" ++ [0])
                7 (recfn mod 10 + 48))
        with (Some (track_name (u8 (recfn / 100 + 48)) (u8 (recfn / 10 + 48))
                      (u8 (recfn mod 10 + 48)) ".ogg" ++ [0])).
      cbv iota beta zeta. unfold u8, u16.
      rewrite (Z.mod_small (recfn + 1) 65536), (Z.mod_small (recfn / 100 + 48) 256),
        (Z.mod_small (recfn / 10 + 48) 256), (Z.mod_small (recfn mod 10 + 48) 256) by lia.
      exists lcd. do 2 f_equal.
      destruct (Z.eqb_spec recfn 998) as [->|]; [reflexivity|].
      replace (recfn + 1 =? 999) with false by lia. reflexivity. }
    unfold record_name. rewrite record_name_start.
    destruct digits as [|d1 [|d2 [|d3 ds]]]; cbn [List.length] in Hl; [| | |lia];
      cbn [app].
    + apply (Hauto 48 48 48).
    + inversion Hd as [|? ? Hd1 _]; subst.
      destruct (record_name_loop_digit d1 (65 :: rest) 48 48 48 recfn
                  [(LINE2, codes "A (record next)")] Hd1) as ([lcd1 ->] & _).
      apply (Hauto _ _ _ lcd1).
    + inversion Hd as [|? ? Hd1 Hd']; subst. inversion Hd' as [|? ? Hd2 _]; subst.
      destruct (record_name_loop_digit d1 (d2 :: 65 :: rest) 48 48 48 recfn
                  [(LINE2, codes "A (record next)")] Hd1) as ([lcd1 ->] & _).
      destruct (record_name_loop_digit d2 (65 :: rest) d1 48 48 recfn lcd1 Hd2)
        as (_ & [lcd2 ->] & _).
      apply (Hauto _ _ _ lcd2).
  - intros H. rewrite decimal03_spec by lia.
    assert (0 <= recfn / 10 < 10)
      by (split; [apply Z.div_pos; lia | apply Z.div_lt_upper_bound; lia]).
    rewrite (Z.mod_small (recfn / 10) 10) by lia.
    f_equal; [lia|]. f_equal; [lia|]. f_equal. lia.
  - intros H. unfold isDigit.
    assert (10 <= recfn / 10) by (apply Z.div_le_lower_bound; lia).
    apply andb_false_iff. right. apply Z.leb_gt. lia.
Qed.

Lemma record_name_automatic_witness :
  (exists lcd,
     record_name [] [49; 65] 123 =
       Done (mkNamed (track_name 49 60 51 ".ogg" ++ [0]) [] lcd, 124)) /\
  isDigit 60 = false.
Proof.
  destruct (record_name_automatic [] [49] [] 123) as (H1 & _ & H3).
  - repeat constructor.
  - cbn; lia.
  - lia.
  - split; [exact H1 | apply H3; lia].
Defined.

(** ** The name of the track to play *)

Lemma cstring_track_name a b c ext :
  a <> 0 -> b <> 0 -> c <> 0 -> ext = ".ogg"%string \/ ext = ".mp3"%string ->
  cstring (track_name a b c ext ++ [0]) = track_name a b c ext.
Proof.
  intros Ha Hb Hc [-> | ->]; cbn;
    replace (a =? 0) with false by lia; replace (b =? 0) with false by lia;
    replace (c =? 0) with false by lia; reflexivity.
Qed.

Lemma track_number_loop_bound keys : forall tracknum cnt lcd,
  (cnt = 0 /\ tracknum = 0) \/ (cnt = 1 /\ 0 <= tracknum < 10) \/
  (cnt = 2 /\ 0 <= tracknum < 100) ->
  match track_number_loop keys tracknum cnt lcd with
  | Done (n, _, _) => 0 <= n < 1000
  | NeedKey => True
  | Outside => False
  end.
Proof.
  induction keys as [|key keys IH]; intros tracknum cnt lcd Hc;
    cbn [track_number_loop]; [exact I|].
  destruct (key =? 0); [lia|].
  destruct (isDigit key) eqn:Hd.
  - apply isDigit_range in Hd.
    assert (u16 (tracknum * 10 + key - 48) = tracknum * 10 + key - 48) as ->
      by (unfold u16; apply Z.mod_small; lia).
    destruct Hc as [[-> ->] | [[-> Ht] | [-> Ht]]].
    + change (u8 (0 + 1)) with 1. destruct (key =? 65); cbn [orb Z.eqb Pos.eqb]; [lia|].
      apply IH. lia.
    + change (u8 (1 + 1)) with 2. destruct (key =? 65); cbn [orb Z.eqb Pos.eqb]; [lia|].
      apply IH. lia.
    + change (u8 (2 + 1)) with 3. rewrite orb_true_r. lia.
  - destruct (key =? 65); cbn [orb]; [lia|].
    replace (cnt =? 3) with false by lia. apply IH. exact Hc.
Qed.

Lemma snprintf_track junk n :
  0 <= n < 1000 ->
  snprintf (alloc 13 junk) MAX_BUFF (codes "track" ++ decimal03 n ++ codes ".mp3") =
    Some (track_name (48 + n / 100) (48 + (n / 10) mod 10) (48 + n mod 10) ".mp3" ++ [0]).
Proof.
  intros Hn. unfold snprintf. rewrite decimal03_spec by exact Hn.
  change (firstn (Z.to_nat (MAX_BUFF - 1)) ?l) with l.
  rewrite strcpy_at_spec by (rewrite ?alloc_length; cbn; lia).
  rewrite skipn_all2 by (rewrite alloc_length; cbn; lia).
  assert (0 <= n / 100 < 10)
    by (split; [apply Z.div_pos; lia | apply Z.div_lt_upper_bound; lia]).
  pose proof (Z.mod_pos_bound (n / 10) 10 ltac:(lia)).
  pose proof (Z.mod_pos_bound n 10 ltac:(lia)).
  cbn [firstn Z.to_nat app map codes]. unfold track_name. cbn [map app codes].
  rewrite map_app. cbn [map]. change (map u8 (codes "track")) with (codes "track").
  change (map u8 (codes ".mp3")) with (codes ".mp3").
  unfold u8. rewrite (Z.mod_small (48 + n / 100)), (Z.mod_small (48 + (n / 10) mod 10)),
    (Z.mod_small (48 + n mod 10)) by lia.
  reflexivity.
Qed.

(** The names of the play-by-number menu: "track", three decimal digits of a
    number from 1 to 999, and ".mp3" or ".ogg". *)
Lemma play_track_number_name junk k0 keys nm :
  k0 <> LEFT ->
  play_track_name junk (k0 :: keys) = Done nm ->
  exists n ext,
    1 <= n < 1000 /\ (ext = ".mp3"%string \/ ext = ".ogg"%string) /\
    nm_name nm =
      track_name (48 + n / 100) (48 + (n / 10) mod 10) (48 + n mod 10) ext ++ [0].
Proof.
  intros Hk. unfold play_track_name. replace (k0 =? LEFT) with false by lia.
  pose proof (track_number_loop_bound keys 0 0
    [(LINE3, codes "name(L)/num(R)?"); (LINE3, repeat 32 16)] ltac:(lia)) as Hb.
  destruct (track_number_loop keys 0 0 _) as [[[n keys2] lcd2]| |];
    [|discriminate|discriminate].
  set (n' := if n =? 0 then 1 else n).
  assert (1 <= n' < 1000) as Hn' by (subst n'; destruct (Z.eqb_spec n 0); lia).
  rewrite snprintf_track by lia.
  destruct keys2 as [|key2 keys3]; [discriminate|].
  destruct (key2 =? RIGHT).
  - change (strcpy_at (track_name ?a ?b ?c ".mp3" ++ [0]) 9 (codes "ogg"))
      with (Some (track_name a b c ".ogg" ++ [0])).
    intros H; injection H as <-. exists n', ".ogg"%string. cbn [nm_name]. auto.
  - intros H; injection H as <-. exists n', ".mp3"%string. cbn [nm_name]. auto.
Qed.

(** A recording named by its number is played back by the same number.
    Three digits typed in the record menu name the recording
    "trackABC.ogg"; the same digits typed in the play-by-number menu, with
    the choice of OGG, give that very name, except for "000": the number 0 is
    played as track 1, so "track000.ogg" cannot be chosen by its number. *)
Theorem number_typed_round_trip junk junk' d1 d2 d3 recfn k0 :
  isDigit d1 = true -> isDigit d2 = true -> isDigit d3 = true ->
  k0 <> LEFT ->
  exists nm nm',
    record_name junk [d1; d2; d3] recfn = Done (nm, recfn) /\
    cstring (nm_name nm) = track_name d1 d2 d3 ".ogg" /\
    play_track_name junk' [k0; d1; d2; d3; RIGHT] = Done nm' /\
    ((d1 <> 48 \/ d2 <> 48 \/ d3 <> 48) -> cstring (nm_name nm') = cstring (nm_name nm)) /\
    (d1 = 48 /\ d2 = 48 /\ d3 = 48 -> cstring (nm_name nm') = track_name 48 48 49 ".ogg").
Proof.
  intros H1 H2 H3 Hk.
  pose proof (isDigit_range _ H1) as R1. pose proof (isDigit_range _ H2) as R2.
  pose proof (isDigit_range _ H3) as R3.
  (* the record menu *)
  unfold record_name. rewrite record_name_start.
  destruct (record_name_loop_digit d1 [d2; d3] 48 48 48 recfn
              [(LINE2, codes "A (record next)")] H1) as ([l1 ->] & _).
  destruct (record_name_loop_digit d2 [d3] d1 48 48 recfn l1 H2) as (_ & [l2 ->] & _).
  destruct (record_name_loop_digit d3 [] d1 d2 48 recfn l2 H3) as (_ & _ & [l3 ->]).
  eexists. cbn [nm_name].
  (* the play menu *)
  unfold play_track_name. replace (k0 =? LEFT) with false by lia.
  cbn [track_number_loop]. replace (d1 =? 0) with false by lia.
  replace (d2 =? 0) with false by lia. replace (d3 =? 0) with false by lia.
  rewrite H1, H2, H3.
  replace (d1 =? 65) with false by lia. replace (d2 =? 65) with false by lia.
  change (u8 (0 + 1)) with 1. change (u8 (1 + 1)) with 2. change (u8 (2 + 1)) with 3.
  cbn [orb Z.eqb Pos.eqb]. rewrite orb_true_r.
  set (a := d1 - 48). set (b := d2 - 48). set (c := d3 - 48).
  assert (u16 (0 * 10 + d1 - 48) = a) as -> by (unfold u16; rewrite Z.mod_small; lia).
  assert (u16 (a * 10 + d2 - 48) = 10 * a + b) as -> by (unfold u16; rewrite Z.mod_small; lia).
  assert (u16 ((10 * a + b) * 10 + d3 - 48) = 100 * a + 10 * b + c) as ->
    by (unfold u16; rewrite Z.mod_small; lia).
  set (n := 100 * a + 10 * b + c).
  set (n' := if n =? 0 then 1 else n).
  assert (1 <= n' < 1000) as Hn' by (subst n' n; destruct (Z.eqb_spec (100 * a + 10 * b + c) 0); lia).
  rewrite snprintf_track by lia. cbn [Z.eqb Pos.eqb RIGHT].
  change (strcpy_at (track_name ?x ?y ?z ".mp3" ++ [0]) 9 (codes "ogg"))
    with (Some (track_name x y z ".ogg" ++ [0])).
  eexists. split; [reflexivity|]. cbn [nm_name].
  rewrite !cstring_track_name by (auto; lia).
  split; [reflexivity|]. split; [reflexivity|]. cbn [nm_name].
  assert (0 <= n' / 100) by (apply Z.div_pos; lia).
  pose proof (Z.mod_pos_bound (n' / 10) 10 ltac:(lia)).
  pose proof (Z.mod_pos_bound n' 10 ltac:(lia)).
  rewrite !cstring_track_name by (auto; lia). split.
  - intros Hne. assert (n <> 0) as Hn0 by (subst n a b c; lia).
    subst n'. replace (n =? 0) with false by lia.
    assert (n / 100 = a) as -> by (subst n; symmetry; apply Z.div_unique with (10 * b + c); lia).
    assert (n / 10 = 10 * a + b) as -> by (subst n; symmetry; apply Z.div_unique with c; lia).
    assert ((10 * a + b) mod 10 = b) as -> by (symmetry; apply Z.mod_unique with a; lia).
    assert (n mod 10 = c) as -> by (subst n; symmetry; apply Z.mod_unique with (10 * a + b); lia).
    subst a b c. replace (48 + (d1 - 48)) with d1 by lia. replace (48 + (d2 - 48)) with d2 by lia. replace (48 + (d3 - 48)) with d3 by lia. reflexivity.
  - intros (-> & -> & ->). reflexivity.
Qed.

Lemma number_typed_round_trip_witness :
  exists nm nm',
    record_name [] [48; 52; 50] 0 = Done (nm, 0) /\
    play_track_name [] [RIGHT; 48; 52; 50; RIGHT] = Done nm' /\
    cstring (nm_name nm') = cstring (nm_name nm).
Proof.
  destruct (number_typed_round_trip [] [] 48 52 50 0 RIGHT)
    as (nm & nm' & Hr & _ & Hp & Hsame & _); try reflexivity; [discriminate|].
  exists nm, nm'. repeat split; try assumption. apply Hsame. right. left. discriminate.
Defined.

(** Recordings numbered automatically from 100 on are out of reach of the
    play-by-number menu: the name written for a counter from 100 to 998 has a
    middle character above '9', and every name the number entry of
    play_track builds has three digits after "track". *)
Theorem automatic_name_not_playable junk junk' digits rest recfn k0 keys nm nm' recfn' :
  100 <= recfn < 999 ->
  Forall (fun key => isDigit key = true) digits ->
  (List.length digits <= 2)%nat ->
  k0 <> LEFT ->
  record_name junk (digits ++ 65 :: rest) recfn = Done (nm, recfn') ->
  play_track_name junk' (k0 :: keys) = Done nm' ->
  cstring (nm_name nm') <> cstring (nm_name nm).
Proof.
  intros Hr Hd Hl Hk Hrec Hplay.
  (* the recorded name *)
  assert (exists lcd, record_name junk (digits ++ 65 :: rest) recfn =
            Done (mkNamed (track_name (recfn / 100 + 48) (recfn / 10 + 48) (recfn mod 10 + 48)
                                      ".ogg" ++ [0]) rest lcd,
                  if recfn =? 998 then 0 else recfn + 1)) as [lcd Hauto].
  { unfold record_name. rewrite record_name_start.
    assert (forall a b c cnt l, exists l',
      record_name_loop (65 :: rest) (track_name a b c ".ogg" ++ [0]) cnt recfn l =
      Done (mkNamed (track_name (recfn / 100 + 48) (recfn / 10 + 48) (recfn mod 10 + 48)
                                ".ogg" ++ [0]) rest l',
            if recfn =? 998 then 0 else recfn + 1)) as HA.
    { intros a b c cnt l. cbn [record_name_loop]. cbn [Z.eqb Pos.eqb isDigit Z.leb Z.compare
        Pos.compare Pos.compare_cont andb].
      assert (0 <= recfn / 100 < 10)
        by (split; [apply Z.div_pos; lia | apply Z.div_lt_upper_bound; lia]).
      assert (0 <= recfn / 10 < 100)
        by (split; [apply Z.div_pos; lia | apply Z.div_lt_upper_bound; lia]).
      pose proof (Z.mod_pos_bound recfn 10 ltac:(lia)).
      change (poke (track_name a b c ".ogg" ++ [0]) 5 (recfn / 100 + 48))
        with (Some (track_name (u8 (recfn / 100 + 48)) b c ".ogg" ++ [0])).
      cbv iota beta.
      change (poke (track_name (u8 (recfn / 100 + 48)) b c ".ogg" ++ [0]) 6 (recfn / 10 + 48))
        with (Some (track_name (u8 (recfn / 100 + 48)) (u8 (recfn / 10 + 48)) c ".ogg" ++ [0])).
      cbv iota beta.
      change (poke (track_name (u8 (recfn / 100 + 48)) (u8 (recfn / 10 + 48)) c ".ogg" ++ [0])
                7 (recfn mod 10 + 48))
        with (Some (track_name (u8 (recfn / 100 + 48)) (u8 (recfn / 10 + 48))
                      (u8 (recfn mod 10 + 48)) ".ogg" ++ [0])).
      cbv iota beta zeta. unfold u8, u16.
      rewrite (Z.mod_small (recfn + 1) 65536), (Z.mod_small (recfn / 100 + 48) 256),
        (Z.mod_small (recfn / 10 + 48) 256), (Z.mod_small (recfn mod 10 + 48) 256) by lia.
      exists l. do 2 f_equal.
      destruct (Z.eqb_spec recfn 998) as [->|]; [reflexivity|].
      replace (recfn + 1 =? 999) with false by lia. reflexivity. }
    destruct digits as [|d1 [|d2 [|d3 ds]]]; cbn [List.length] in Hl; [| | |lia]; cbn [app].
    - apply HA.
    - inversion Hd as [|? ? Hd1 _]; subst.
      destruct (record_name_loop_digit d1 (65 :: rest) 48 48 48 recfn
                  [(LINE2, codes "A (record next)")] Hd1) as ([l1 ->] & _). apply HA.
    - inversion Hd as [|? ? Hd1 Hd']; subst. inversion Hd' as [|? ? Hd2 _]; subst.
      destruct (record_name_loop_digit d1 (d2 :: 65 :: rest) 48 48 48 recfn
                  [(LINE2, codes "A (record next)")] Hd1) as ([l1 ->] & _).
      destruct (record_name_loop_digit d2 (65 :: rest) d1 48 48 recfn l1 Hd2)
        as (_ & [l2 ->] & _). apply HA. }
  rewrite Hauto in Hrec. injection Hrec as <- _.
  destruct (play_track_number_name junk' k0 keys nm' Hk Hplay) as (n & ext & Hn & Hext & ->).
  cbn [nm_name].
  assert (0 <= recfn / 100 < 10)
    by (split; [apply Z.div_pos; lia | apply Z.div_lt_upper_bound; lia]).
  assert (10 <= recfn / 10) by (apply Z.div_le_lower_bound; lia).
  pose proof (Z.mod_pos_bound recfn 10 ltac:(lia)).
  assert (0 <= n / 100) by (apply Z.div_pos; lia).
  pose proof (Z.mod_pos_bound (n / 10) 10 ltac:(lia)).
  pose proof (Z.mod_pos_bound n 10 ltac:(lia)).
  change [116; 114; 97; 99; 107; recfn / 100 + 48; recfn / 10 + 48; recfn mod 10 + 48;
          46; 111; 103; 103; 0]
    with (track_name (recfn / 100 + 48) (recfn / 10 + 48) (recfn mod 10 + 48) ".ogg" ++ [0]).
  rewrite !cstring_track_name by (tauto || lia).
  unfold track_name. intros E. apply app_inv_head in E. cbn [app] in E.
  apply (f_equal (fun l => nth 1 l 0)) in E. cbn [nth] in E. lia.
Qed.

Lemma automatic_name_not_playable_witness :
  exists nm nm',
    record_name [] [65] 100 = Done (nm, 101) /\
    play_track_name [] [RIGHT; 49; 48; 48; RIGHT] = Done nm' /\
    cstring (nm_name nm') <> cstring (nm_name nm).
Proof.
  eexists _, _. split; [reflexivity|]. split; [reflexivity|].
  apply (automatic_name_not_playable [] [] [] [] 100 RIGHT [49; 48; 48; RIGHT] _ _ 101);
    try reflexivity; [lia | constructor | cbn; lia | discriminate].
Defined.

(** ** The name typed on the keypad *)

Lemma peek_inside buf i :
  0 <= i < Z.of_nat (List.length buf) -> exists c, peek buf i = Some c.
Proof.
  intros Hi. unfold peek. replace (0 <=? i) with true by lia.
  destruct (nth_error buf (Z.to_nat i)) as [c|] eqn:E; [eauto|].
  apply nth_error_None in E. lia.
Qed.

Lemma poke_inside buf i b :
  0 <= i < Z.of_nat (List.length buf) ->
  exists buf', poke buf i b = Some buf' /\ List.length buf' = List.length buf.
Proof.
  intros Hi. destruct (poke buf i b) as [buf'|] eqn:E.
  - exists buf'. split; [reflexivity | exact (poke_length _ _ _ _ E)].
  - rewrite poke_spec in E by exact Hi. discriminate.
Qed.

Lemma update_at_inside buf i f :
  0 <= i < Z.of_nat (List.length buf) ->
  exists buf', update_at buf i f = Some buf' /\ List.length buf' = List.length buf.
Proof.
  intros Hi. unfold update_at. destruct (peek_inside buf i Hi) as [c ->].
  apply poke_inside, Hi.
Qed.

(** What the loop of createName keeps true of its locals: the index is
    between -1 and 7, a remembered key means a character was typed, and the
    unsigned cnt is not negative. *)
Definition cn_inv (st : cn_state) : Prop :=
  List.length (cn_name st) = 13%nat /\
  -1 <= cn_index st <= 7 /\
  (cn_prevkey st <> 0 -> 0 <= cn_index st) /\
  0 <= cn_cnt st.

Ltac inside H :=
  match goal with
  | |- context [peek ?buf ?i] =>
      let c := fresh "c" in let E := fresh "E" in
      destruct (peek_inside buf i) as (c & E); [rewrite ?H; lia|];
      rewrite E
  | |- context [poke ?buf ?i ?b] =>
      let buf' := fresh "buf" in let E := fresh "E" in let L := fresh "L" in
      destruct (poke_inside buf i b) as (buf' & E & L); [rewrite ?H; lia|];
      rewrite E; rewrite H in L
  | |- context [update_at ?buf ?i ?f] =>
      let buf' := fresh "buf" in let E := fresh "E" in let L := fresh "L" in
      destruct (update_at_inside buf i f) as (buf' & E & L); [rewrite ?H; lia|];
      rewrite E; rewrite H in L
  end.

Ltac cn_done :=
  eexists _, _; (split; [reflexivity|]);
  cbn [cn_name cn_index cn_prevkey cn_cnt];
  repeat split; try assumption; try discriminate; try lia;
  try (unfold u8; apply Z.mod_pos_bound; lia).

Lemma createName_key_inv key st :
  cn_inv st -> key <> 0 -> (key = 65 -> 0 <= cn_index st) ->
  exists st' stop,
    createName_key key st = Some (st', stop) /\
    List.length (cn_name st') = 13%nat /\
    (stop = false -> cn_inv st') /\
    (stop = true -> 1 <= cn_index st' <= 8).
Proof.
  destruct st as [name index prevkey cnt limit]. unfold cn_inv.
  cbn [cn_name cn_index cn_prevkey cn_cnt].
  intros (Hlen & Hi & Hp & Hc) Hk HA. unfold createName_key.
  cbn [cn_name cn_index cn_prevkey cn_cnt cn_limit].
  destruct (Z.eqb_spec key 65) as [->|_].
  { specialize (HA eq_refl). inside Hlen.
    match goal with |- context [(65 <=? ?x) && (?x <=? 90)] =>
      destruct ((65 <=? x) && (x <=? 90)); [inside Hlen; cn_done|];
      destruct ((97 <=? x) && (x <=? 122)); [inside Hlen; cn_done | cn_done]
    end. }
  destruct (Z.eqb_spec key 49) as [->|_].
  { cn_done. destruct (Z.eqb_spec index 7); cbn [negb]; intros; lia. }
  destruct ((key >? 49) && (key <=? 57)).
  { destruct (Z.eqb_spec key prevkey) as [<-|Hne]; cbn [negb].
    - specialize (Hp Hk). destruct (cnt >? limit); inside Hlen; cn_done.
    - destruct (Z.ltb_spec index 7); inside Hlen;
        (destruct (key >? 55); [inside L|]); cn_done. }
  destruct (Z.eqb_spec key 35) as [->|_].
  { replace (cnt >=? 0) with true by lia. cbn [andb].
    destruct (Z.ltb_spec index 7).
    - inside Hlen. cn_done.
    - inside Hlen. inside L.
      match goal with |- context [?x >? 57] => destruct (x >? 57); [inside L|] end; cn_done. }
  destruct (Z.eqb_spec key 42) as [->|_]; cbn [andb].
  { destruct (Z.gtb_spec index (-1)).
    - inside Hlen. cn_done.
    - cn_done. }
  destruct (Z.eqb_spec key 48) as [->|_]; cbn [andb].
  { destruct (Z.gtb_spec index (-1)); cn_done. }
  cn_done.
Qed.

Lemma createName_loop_inv keys : forall st lcd,
  Forall (fun key => key <> 0 /\ key <> 65) keys -> cn_inv st ->
  match createName_loop keys st lcd with
  | Outside => False
  | NeedKey => True
  | Done (st', _, _) => List.length (cn_name st') = 13%nat /\ 1 <= cn_index st' <= 8
  end.
Proof.
  induction keys as [|key keys IH]; intros st lcd Hk Hinv; cbn [createName_loop]; [exact I|].
  inversion Hk as [|? ? [H0 HA] Hk']; subst.
  replace (key =? 0) with false by lia.
  assert (key = 65 -> 0 <= cn_index st) as HA' by (intros; contradiction).
  destruct (createName_key_inv key st Hinv H0 HA') as (st' & stop & -> & Hlen & Hgo & Hstop).
  destruct stop.
  - split; [exact Hlen | exact (Hstop eq_refl)].
  - apply IH; [exact Hk' | exact (Hgo eq_refl)].
Qed.

Lemma cn_inv_start : cn_inv (mkCn (repeat 0 13) (-1) 0 0 2).
Proof. unfold cn_inv. cbn. repeat split; try lia. Qed.

(** A name typed on the keypad fits its buffer.  As long as the case key 'A'
    is left alone, whatever is pressed in createName, the function never
    indexes trackname outside its 13 bytes, and the name it leaves there is
    at least one and at most eight characters, the extension chosen and the
    NUL. *)
Theorem createName_in_bounds keys lcd :
  Forall (fun key => key <> 0 /\ key <> 65) keys ->
  createName keys lcd <> Outside /\
  forall nm, createName keys lcd = Done nm ->
    exists stem ext rest,
      nm_name nm = stem ++ codes ext ++ 0 :: rest /\
      (1 <= List.length stem <= 8)%nat /\
      (ext = ".mp3"%string \/ ext = ".ogg"%string) /\
      List.length (nm_name nm) = 13%nat.
Proof.
  intros Hk. unfold createName.
  pose proof (createName_loop_inv keys _ lcd Hk cn_inv_start) as H.
  destruct (createName_loop keys _ lcd) as [[[st keys1] lcd1]| |]; [| |contradiction].
  2: { split; [discriminate|]. intros nm E. discriminate E. }
  destruct H as [Hlen Hi]. destruct keys1 as [|key keys2].
  { split; [discriminate|]. intros nm E. discriminate E. }
  set (ext := if key =? RIGHT then codes ".ogg" else codes ".mp3").
  assert (List.length ext = 4%nat) as Hext by (subst ext; destruct (key =? RIGHT); reflexivity).
  assert (map u8 ext = ext) as Hu8 by (subst ext; destruct (key =? RIGHT); reflexivity).
  rewrite strcpy_at_spec by (rewrite ?Hlen, ?Hext; lia). rewrite Hu8.
  split; [discriminate|]. intros nm E.
  match type of E with Done ?x = _ => replace nm with x by congruence end. cbn [nm_name].
  exists (firstn (Z.to_nat (cn_index st)) (cn_name st)),
         (if key =? RIGHT then ".ogg"%string else ".mp3"%string),
         (skipn (S (Z.to_nat (cn_index st) + List.length ext)) (cn_name st)).
  assert (List.length (firstn (Z.to_nat (cn_index st)) (cn_name st)) = Z.to_nat (cn_index st))
    as Hf by (rewrite length_firstn, Hlen; lia).
  repeat split.
  - subst ext. destruct (key =? RIGHT); reflexivity.
  - lia.
  - lia.
  - destruct (key =? RIGHT); auto.
  - rewrite !length_app, Hf, Hext. cbn [List.length]. rewrite length_skipn, Hlen. lia.
Qed.

Lemma createName_in_bounds_witness :
  createName [50; 50; 49; 51; 35; 42; 48; RIGHT] [] <> Outside /\
  exists nm stem ext rest,
    createName [50; 50; 49; 51; 35; 42; 48; RIGHT] [] = Done nm /\
    cstring (nm_name nm) = codes "bd.ogg" /\
    nm_name nm = stem ++ codes ext ++ 0 :: rest /\
    (1 <= List.length stem <= 8)%nat.
Proof.
  destruct (createName_in_bounds [50; 50; 49; 51; 35; 42; 48; RIGHT] []) as [Hin Hshape].
  - repeat constructor; discriminate.
  - split; [exact Hin|].
    remember (createName [50; 50; 49; 51; 35; 42; 48; RIGHT] []) as r eqn:Hr in *.
    vm_compute in Hr. subst r.
    destruct (Hshape _ eq_refl) as (stem & ext & rest & E & Hl & _).
    eexists _, stem, ext, rest. split; [reflexivity|]. split; [reflexivity|].
    split; [exact E | exact Hl].
Defined.

(** A key that types nothing leaves the empty name as it is. *)
Lemma createName_key_idle key :
  key <> 65 -> key <> 35 -> ~ 50 <= key <= 57 ->
  createName_key key (mkCn (repeat 0 13) (-1) 0 0 2) =
    Some (mkCn (repeat 0 13) (-1) 0 0 2, false).
Proof.
  intros HA Hh Hd. unfold createName_key. cbn [cn_name cn_index cn_prevkey cn_cnt cn_limit].
  replace (key =? 65) with false by lia.
  destruct (Z.eqb_spec key 49) as [->|]; [reflexivity|].
  replace ((key >? 49) && (key <=? 57)) with false
    by (symmetry; apply andb_false_iff; lia).
  replace (key =? 35) with false by lia.
  change (-1 >? -1) with false. rewrite !andb_false_r. reflexivity.
Qed.

(** The case key on an empty name.  When 'A' is pressed in createName before
    any character has been typed (only keys that type nothing came before:
    '1', '*', '0', 'B', 'C', 'D'), index is still -1 and the function reads
    trackname[-1], the byte in front of the buffer. *)
Theorem case_key_on_empty_name pre keys lcd :
  Forall (fun key => key <> 0 /\ key <> 65 /\ key <> 35 /\ ~ 50 <= key <= 57) pre ->
  createName (pre ++ 65 :: keys) lcd = Outside.
Proof.
  intros Hpre. unfold createName.
  assert (createName_loop (pre ++ 65 :: keys) (mkCn (repeat 0 13) (-1) 0 0 2) lcd = Outside)
    as ->; [|reflexivity].
  revert lcd. induction Hpre as [|key pre (H0 & HA & Hh & Hd) _ IH]; intros lcd.
  - reflexivity.
  - cbn [app createName_loop]. replace (key =? 0) with false by lia.
    rewrite createName_key_idle by assumption. apply IH.
Qed.

Lemma case_key_on_empty_name_witness :
  createName [49; 42; 65; 50; 48; RIGHT] [] = Outside.
Proof.
  apply (case_key_on_empty_name [49; 42] [50; 48; RIGHT] []).
  repeat constructor; try discriminate; lia.
Defined.

(** ** The rotating keypad *)

Lemma peek_app pre c post : peek (pre ++ c :: post) (Z.of_nat (List.length pre)) = Some c.
Proof.
  unfold peek. destruct (Z.leb_spec 0 (Z.of_nat (List.length pre))); [|lia].
  rewrite Nat2Z.id. rewrite nth_error_app2 by apply Nat.le_refl. rewrite Nat.sub_diag. reflexivity.
Qed.

Lemma poke_app pre c post b :
  poke (pre ++ c :: post) (Z.of_nat (List.length pre)) b = Some (pre ++ u8 b :: post).
Proof.
  rewrite poke_spec by (rewrite length_app; cbn [List.length]; lia).
  rewrite Nat2Z.id. f_equal.
  rewrite firstn_app, Nat.sub_diag, firstn_all. cbn [firstn]. rewrite app_nil_r. f_equal. f_equal.
  change (S (List.length pre)) with (1 + List.length pre)%nat. rewrite <- skipn_skipn.
  rewrite skipn_app, Nat.sub_diag, skipn_all. reflexivity.
Qed.

Lemma update_at_app pre c post f :
  update_at (pre ++ c :: post) (Z.of_nat (List.length pre)) f = Some (pre ++ u8 (f c) :: post).
Proof. unfold update_at. rewrite peek_app. apply poke_app. Qed.

Lemma mod_succ (j m : nat) :
  (0 < m)%nat ->
  (S j mod m = if (j mod m =? m - 1)%nat then 0 else S (j mod m))%nat.
Proof.
  intros Hm. pose proof (Nat.div_mod_eq j m) as E.
  pose proof (Nat.mod_upper_bound j m ltac:(lia)) as B.
  destruct (Nat.eqb_spec (j mod m) (m - 1)) as [Heq|Hne]; symmetry.
  - apply Nat.mod_unique with (S (j / m)%nat); [lia | nia].
  - apply Nat.mod_unique with (j / m)%nat; [lia | nia].
Qed.

(** Pressing again the key that typed the last character steps through the
    letters of its group, and back to the first one after the last. *)
Lemma same_key_cycle key (L : nat) base pre post rest :
  50 <= key <= 57 -> (L <= 3)%nat -> 0 <= base <= 200 ->
  forall n j lcd, exists lcd',
    createName_loop (repeat key n ++ rest)
      (mkCn (pre ++ (base + Z.of_nat (j mod S L)) :: post) (Z.of_nat (List.length pre))
            key (Z.of_nat (j mod S L) + 1) (Z.of_nat L)) lcd =
    createName_loop rest
      (mkCn (pre ++ (base + Z.of_nat ((j + n) mod S L)) :: post) (Z.of_nat (List.length pre))
            key (Z.of_nat ((j + n) mod S L) + 1) (Z.of_nat L)) lcd'.
Proof.
  intros Hk HL Hb. induction n as [|n IH]; intros j lcd.
  - exists lcd. rewrite Nat.add_0_r. reflexivity.
  - cbn [repeat app createName_loop]. replace (key =? 0) with false by lia.
    pose proof (Nat.mod_upper_bound j (S L) ltac:(lia)) as B.
    assert (createName_key key
              (mkCn (pre ++ (base + Z.of_nat (j mod S L)) :: post) (Z.of_nat (List.length pre))
                    key (Z.of_nat (j mod S L) + 1) (Z.of_nat L)) =
            Some (mkCn (pre ++ (base + Z.of_nat (S j mod S L)) :: post)
                       (Z.of_nat (List.length pre))
                       key (Z.of_nat (S j mod S L) + 1) (Z.of_nat L), false)) as ->.
    { unfold createName_key. cbn [cn_name cn_index cn_prevkey cn_cnt cn_limit].
      replace (key =? 65) with false by lia. replace (key =? 49) with false by lia.
      replace ((key >? 49) && (key <=? 57)) with true
        by (symmetry; apply andb_true_iff; lia).
      rewrite Z.eqb_refl. cbn [negb]. rewrite !update_at_app.
      rewrite mod_succ by lia. replace (S L - 1)%nat with L by lia.
      destruct (Nat.eqb_spec (j mod S L) L) as [E|E].
      - replace (Z.of_nat (j mod S L) + 1 >? Z.of_nat L) with true by lia.
        rewrite E. unfold u8. rewrite Z.mod_small by lia.
        replace (base + Z.of_nat L - Z.of_nat L) with (base + Z.of_nat 0) by lia. reflexivity.
      - replace (Z.of_nat (j mod S L) + 1 >? Z.of_nat L) with false by lia.
        unfold u8. rewrite !Z.mod_small by lia.
        rewrite Nat2Z.inj_succ. unfold Z.succ. rewrite Z.add_assoc. reflexivity. }
    destruct (IH (S j) (lcd ++
      [(LINE3, cstring (pre ++ (base + Z.of_nat (S j mod S L)) :: post))])) as [lcd' E].
    exists lcd'. cbn [cn_name]. rewrite E. replace (S j + n)%nat with (j + S n)%nat by lia.
    reflexivity.
Qed.

(** The letter a key types first, and how many more its group has. *)
Lemma letter_of_eq key n :
  50 <= key <= 57 ->
  let L := if (key =? 55) || (key =? 57) then 3%nat else 2%nat in
  letter_of (key, n) =
    97 + 3 * (key - 50) + (if key >? 55 then 1 else 0) + Z.of_nat (n mod S L).
Proof.
  intros Hk. unfold letter_of. cbn [fst snd].
  assert (key = 50 \/ key = 51 \/ key = 52 \/ key = 53 \/ key = 54 \/ key = 55 \/ key = 56 \/
          key = 57) as Hcases by lia.
  destruct Hcases as [->|[->|[->|[->|[->|[->|[->| ->]]]]]]];
    match goal with |- context [keypad_letters ?k] =>
      let l := eval vm_compute in (keypad_letters k) in
      change (keypad_letters k) with l
    end; cbn [List.length Z.eqb Pos.eqb orb Z.gtb Z.compare Pos.compare Pos.compare_cont];
    match goal with |- context [(n mod ?m)%nat] =>
      pose proof (Nat.mod_upper_bound n m ltac:(lia)) as B;
      destruct (n mod m)%nat as [|[|[|[|?]]]]; try reflexivity; lia
    end.
Qed.

(** The first press of a key types the first letter of its group in the
    next place. *)
Lemma first_press key pre c0 post pk cnt lim :
  50 <= key <= 57 -> pk <> key -> (List.length pre <= 7)%nat ->
  createName_key key (mkCn (pre ++ c0 :: post) (Z.of_nat (List.length pre) - 1) pk cnt lim) =
    Some (mkCn (pre ++ (97 + 3 * (key - 50) + (if key >? 55 then 1 else 0)) :: post)
               (Z.of_nat (List.length pre)) key 1
               (if (key =? 55) || (key =? 57) then 3 else 2), false).
Proof.
  intros Hk Hpk Hpre. unfold createName_key. cbn [cn_name cn_index cn_prevkey cn_cnt cn_limit].
  replace (key =? 65) with false by lia. replace (key =? 49) with false by lia.
  replace ((key >? 49) && (key <=? 57)) with true by (symmetry; apply andb_true_iff; lia).
  replace (key =? pk) with false by lia. cbn [negb].
  replace (Z.of_nat (List.length pre) - 1 <? 7) with true by lia.
  replace (Z.of_nat (List.length pre) - 1 + 1) with (Z.of_nat (List.length pre)) by lia.
  rewrite poke_app. destruct (key >? 55) eqn:E.
  - rewrite update_at_app. unfold u8.
    rewrite (Z.mod_small (97 + 3 * (key - 48 - 2)) 256) by lia. rewrite Z.mod_small by lia.
    replace (97 + 3 * (key - 48 - 2) + 1) with (97 + 3 * (key - 50) + 1) by lia. reflexivity.
  - unfold u8. rewrite Z.mod_small by lia.
    replace (97 + 3 * (key - 48 - 2)) with (97 + 3 * (key - 50) + 0) by lia. reflexivity.
Qed.

(** One letter: its key pressed n + 1 times, then '1'. *)
Lemma one_char key n pre c0 post pk cnt lim rest lcd :
  50 <= key <= 57 -> pk <> key -> (List.length pre <= 7)%nat ->
  exists lcd' lim',
    createName_loop (presses (key, n) ++ rest)
      (mkCn (pre ++ c0 :: post) (Z.of_nat (List.length pre) - 1) pk cnt lim) lcd =
    createName_loop rest
      (mkCn (pre ++ letter_of (key, n) :: post) (Z.of_nat (List.length pre))
            (if (List.length pre =? 7)%nat then key else 0) 0 lim') lcd'.
Proof.
  intros Hk Hpk Hpre. unfold presses. cbn [fst snd repeat app createName_loop].
  replace (key =? 0) with false by lia. rewrite first_press by assumption.
  rewrite letter_of_eq by assumption. cbv zeta.
  set (L := if (key =? 55) || (key =? 57) then 3%nat else 2%nat).
  set (base := 97 + 3 * (key - 50) + (if key >? 55 then 1 else 0)).
  assert (L <= 3)%nat as HL by (subst L; destruct ((key =? 55) || (key =? 57)); lia).
  assert (0 <= base <= 200) as Hb by (subst base; destruct (key >? 55); lia).
  replace (if (key =? 55) || (key =? 57) then 3 else 2) with (Z.of_nat L)
    by (subst L; destruct ((key =? 55) || (key =? 57)); reflexivity).
  rewrite <- app_assoc.
  destruct (same_key_cycle key L base pre post ([49] ++ rest) Hk HL Hb n 0
              (lcd ++ [(LINE3, cstring (cn_name (mkCn (pre ++ base :: post)
                                           (Z.of_nat (List.length pre)) key 1 (Z.of_nat L))))]))
    as [lcd1 E].
  rewrite Nat.Div0.mod_0_l in E. cbn [Z.of_nat Nat.add] in E.
  rewrite Z.add_0_r in E. change (0 + 1) with 1 in E. rewrite E.
  cbn [app createName_loop Z.eqb]. unfold createName_key.
  cbn [cn_name cn_index cn_prevkey cn_cnt cn_limit Z.eqb Pos.eqb].
  eexists _, _. f_equal. f_equal.
  destruct (Nat.eqb_spec (List.length pre) 7) as [E7|E7].
  - replace (Z.of_nat (List.length pre) =? 7) with true by lia. reflexivity.
  - replace (Z.of_nat (List.length pre) =? 7) with false by lia. reflexivity.
Qed.

Lemma typed_word w rest : forall pre pk cnt lim lcd,
  (List.length pre + List.length w <= 8)%nat ->
  Forall (fun p => 50 <= fst p <= 57) w ->
  (w <> [] -> pk = 0) ->
  exists lcd' pk' cnt' lim',
    createName_loop (typed w ++ rest)
      (mkCn (pre ++ repeat 0 (13 - List.length pre)) (Z.of_nat (List.length pre) - 1)
            pk cnt lim) lcd =
    createName_loop rest
      (mkCn ((pre ++ map letter_of w) ++ repeat 0 (13 - List.length pre - List.length w))
            (Z.of_nat (List.length pre + List.length w) - 1) pk' cnt' lim') lcd'.
Proof.
  induction w as [|[key n] w IH]; intros pre pk cnt lim lcd Hlen Hw Hpk.
  - exists lcd, pk, cnt, lim. cbn [typed flat_map map List.length app].
    rewrite app_nil_r, Nat.add_0_r, Nat.sub_0_r. reflexivity.
  - inversion Hw as [|? ? Hkey Hw']; subst. cbn [fst] in Hkey. cbn [List.length] in Hlen.
    rewrite (Hpk ltac:(discriminate)).
    cbn [typed flat_map]. fold (typed w). rewrite <- app_assoc.
    replace (13 - List.length pre)%nat with (S (12 - List.length pre)) by lia.
    cbn [repeat].
    destruct (one_char key n pre 0 (repeat 0 (12 - List.length pre)) 0 cnt lim
                (typed w ++ rest) lcd Hkey ltac:(lia) ltac:(lia)) as (lcd1 & lim1 & ->).
    destruct (IH (pre ++ [letter_of (key, n)])
                 (if (List.length pre =? 7)%nat then key else 0) 0 lim1 lcd1)
      as (lcd2 & pk2 & cnt2 & lim2 & E).
    + rewrite length_app. cbn [List.length]. lia.
    + exact Hw'.
    + intros Hne. destruct w; [contradiction|]. cbn [List.length] in Hlen.
      destruct (Nat.eqb_spec (List.length pre) 7); [lia | reflexivity].
    + exists lcd2, pk2, cnt2, lim2.
      rewrite length_app in E. cbn [List.length] in E.
      replace (13 - (List.length pre + 1))%nat with (12 - List.length pre)%nat in E by lia.
      replace (Z.of_nat (List.length pre + 1) - 1) with (Z.of_nat (List.length pre)) in E by lia.
      rewrite <- (app_assoc pre [letter_of (key, n)]) in E. cbn [app] in E. rewrite E.
      cbn [map List.length]. rewrite <- !app_assoc. cbn [app].
      replace (13 - List.length pre - S (List.length w))%nat
        with (13 - (List.length pre + 1) - List.length w)%nat by lia.
      replace (List.length pre + 1 + List.length w)%nat
        with (List.length pre + S (List.length w))%nat by lia.
      reflexivity.
Qed.

(** Typing a name as on a telephone.  A word of one to eight letters, each
    typed by pressing its key once more than its place in the key's group
    ("2 -> abc" ... "9 -> wxyz", starting over after the last letter) and
    entered with '1', then '0' and the choice of the format: createName
    leaves exactly that word, the extension chosen and NULs in trackname. *)
Theorem keypad_types_word w key rest lcd :
  (1 <= List.length w <= 8)%nat ->
  Forall (fun p => 50 <= fst p <= 57) w ->
  exists lcd',
    createName (typed w ++ 48 :: key :: rest) lcd =
      Done (mkNamed (map letter_of w ++
                     (if key =? RIGHT then codes ".ogg" else codes ".mp3") ++
                     repeat 0 (9 - List.length w))
                    rest lcd').
Proof.
  intros Hlen Hw. unfold createName.
  destruct (typed_word w (48 :: key :: rest) [] 0 0 2 lcd) as (lcd1 & pk & cnt & lim & E);
    [cbn [List.length]; lia | exact Hw | reflexivity |].
  assert (createName_loop (typed w ++ 48 :: key :: rest) (mkCn (repeat 0 13) (-1) 0 0 2) lcd =
          createName_loop (48 :: key :: rest)
            (mkCn (map letter_of w ++ repeat 0 (13 - List.length w))
                  (Z.of_nat (List.length w) - 1) pk cnt lim) lcd1) as -> by exact E.
  clear E. cbn [createName_loop Z.eqb]. unfold createName_key.
  cbn [cn_name cn_index cn_prevkey cn_cnt cn_limit Z.eqb Pos.eqb Z.gtb Z.leb Z.compare
       Pos.compare Pos.compare_cont andb].
  replace (Z.of_nat (List.length w) - 1 >? -1) with true by lia.
  cbn [cn_name cn_index].
  replace (Z.of_nat (List.length w) - 1 + 1) with (Z.of_nat (List.length (map letter_of w)))
    by (rewrite length_map; lia).
  set (ext := if key =? RIGHT then codes ".ogg" else codes ".mp3").
  assert (List.length ext = 4%nat) as Hext by (subst ext; destruct (key =? RIGHT); reflexivity).
  assert (map u8 ext = ext) as Hu8 by (subst ext; destruct (key =? RIGHT); reflexivity).
  rewrite strcpy_at_spec
    by (rewrite ?length_app, ?repeat_length, ?length_map, ?Hext; lia).
  rewrite Hu8, Nat2Z.id, Hext.
  rewrite firstn_app, Nat.sub_diag, firstn_all. cbn [firstn]. rewrite app_nil_r.
  replace (S (List.length (map letter_of w) + 4))
    with (5 + List.length (map letter_of w))%nat by lia.
  rewrite <- skipn_skipn, skipn_app, Nat.sub_diag, skipn_all. cbn [app]. change (skipn 0 ?l) with l.
  rewrite ?length_map.
  replace (13 - List.length w)%nat with (5 + (8 - List.length w))%nat by lia.
  change (skipn 5 (repeat 0 (5 + (8 - List.length w)))) with (repeat 0 (8 - List.length w)).
  exists (lcd1 ++ [(LINE4, codes "MP3(L)/OGG(R)?")]). do 2 f_equal. f_equal.
  replace (9 - List.length w)%nat with (S (8 - List.length w)) by lia. reflexivity.
Qed.

Lemma keypad_types_word_witness :
  exists lcd',
    createName (typed [(55, 2%nat); (54, 2%nat); (54, 1%nat); (51, 2%nat)] ++ [48; RIGHT]) [] =
      Done (mkNamed (codes "ronf.ogg" ++ repeat 0 5) [] lcd').
Proof.
  apply (keypad_types_word [(55, 2%nat); (54, 2%nat); (54, 1%nat); (51, 2%nat)] RIGHT [] []).
  - cbn; lia.
  - repeat constructor; cbn; lia.
Defined.

(** ** The '#' key *)

(** While fewer than eight characters are typed, '#' types one more '0':
    cnt >= 0 holds for every value of the unsigned cnt. *)
Lemma hash_fill rest pk lim : forall k pre cnt lcd,
  (List.length pre + k <= 8)%nat -> 0 <= cnt ->
  exists lcd' cnt',
    createName_loop (repeat 35 k ++ rest)
      (mkCn (pre ++ repeat 0 (13 - List.length pre)) (Z.of_nat (List.length pre) - 1)
            pk cnt lim) lcd =
    createName_loop rest
      (mkCn ((pre ++ repeat 48 k) ++ repeat 0 (13 - List.length pre - k))
            (Z.of_nat (List.length pre + k) - 1) pk cnt' lim) lcd' /\
    0 <= cnt'.
Proof.
  induction k as [|k IH]; intros pre cnt lcd Hlen Hc.
  - exists lcd, cnt. cbn [repeat app]. rewrite app_nil_r, Nat.add_0_r, Nat.sub_0_r. auto.
  - cbn [repeat app createName_loop Z.eqb]. unfold createName_key.
    cbn [cn_name cn_index cn_prevkey cn_cnt cn_limit Z.eqb Pos.eqb Z.gtb Z.leb Z.compare
         Pos.compare Pos.compare_cont andb].
    replace (cnt >=? 0) with true by lia.
    replace (Z.of_nat (List.length pre) - 1 <? 7) with true by lia. cbn [andb].
    replace (Z.of_nat (List.length pre) - 1 + 1) with (Z.of_nat (List.length pre)) by lia.
    replace (13 - List.length pre)%nat with (S (12 - List.length pre)) by lia.
    cbn [repeat]. rewrite poke_app. change (u8 48) with 48. change (u8 (-1)) with 255.
    cbn [cn_name].
    destruct (IH (pre ++ [48]) 255
                 (lcd ++ [(LINE3, cstring (pre ++ 48 :: repeat 0 (12 - List.length pre)))]))
      as (lcd' & cnt' & E & Hc'); [rewrite length_app; cbn [List.length]; lia | lia |].
    exists lcd', cnt'. split; [|exact Hc'].
    rewrite length_app in E. cbn [List.length] in E.
    replace (13 - (List.length pre + 1))%nat with (12 - List.length pre)%nat in E by lia.
    replace (Z.of_nat (List.length pre + 1) - 1) with (Z.of_nat (List.length pre)) in E by lia.
    rewrite <- (app_assoc pre [48]) in E. cbn [app] in E. rewrite E.
    rewrite <- !app_assoc. cbn [app].
    replace (13 - List.length pre - S k)%nat
      with (13 - (List.length pre + 1) - k)%nat by lia.
    replace (List.length pre + 1 + k)%nat with (List.length pre + S k)%nat by lia.
    reflexivity.
Qed.

(** On the eighth character '#' counts: 0, 1, ... 9 and 0 again. *)
Lemma hash_count rest pk lim pre post :
  List.length pre = 7%nat ->
  forall m j cnt lcd, (j < 10)%nat -> 0 <= cnt ->
  exists lcd',
    createName_loop (repeat 35 m ++ rest)
      (mkCn (pre ++ (48 + Z.of_nat j) :: post) 7 pk cnt lim) lcd =
    createName_loop rest
      (mkCn (pre ++ (48 + Z.of_nat ((j + m) mod 10)) :: post) 7 pk cnt lim) lcd'.
Proof.
  intros Hpre. induction m as [|m IH]; intros j cnt lcd Hj Hc.
  - exists lcd. rewrite Nat.add_0_r, Nat.mod_small by lia. reflexivity.
  - cbn [repeat app createName_loop Z.eqb]. unfold createName_key.
    cbn [cn_name cn_index cn_prevkey cn_cnt cn_limit Z.eqb Pos.eqb Z.gtb Z.leb Z.ltb Z.compare
         Pos.compare Pos.compare_cont andb].
    rewrite andb_false_r.
    change 7 with (Z.of_nat 7) at 1 2 3. rewrite <- Hpre.
    rewrite update_at_app, peek_app.
    assert (u8 (48 + Z.of_nat j + 1) = 48 + Z.of_nat j + 1) as ->
      by (unfold u8; apply Z.mod_small; lia).
    unfold schar. replace (48 + Z.of_nat j + 1 <? 128) with true by lia.
    destruct (Nat.eq_dec j 9) as [->|Hne].
    + change (48 + Z.of_nat 9 + 1 >? 57) with true. cbv iota. rewrite poke_app.
      change (u8 48) with (48 + Z.of_nat 0). cbn [cn_name]. rewrite Hpre.
      destruct (IH 0%nat cnt (lcd ++ [(LINE3, cstring (pre ++ (48 + Z.of_nat 0) :: post))]))
        as [lcd' E]; [lia | lia |].
      exists lcd'. change (Z.of_nat 7) with 7. rewrite E.
      replace ((9 + S m) mod 10)%nat with ((0 + m) mod 10)%nat; [reflexivity|].
      replace (9 + S m)%nat with (m + 1 * 10)%nat by lia. rewrite Nat.Div0.mod_add. reflexivity.
    + replace (48 + Z.of_nat j + 1 >? 57) with false by lia. cbn [cn_name]. rewrite Hpre.
      replace (48 + Z.of_nat j + 1) with (48 + Z.of_nat (S j)) by lia.
      destruct (IH (S j) cnt (lcd ++ [(LINE3, cstring (pre ++ (48 + Z.of_nat (S j)) :: post))]))
        as [lcd' E]; [lia | lia |].
      exists lcd'. change (Z.of_nat 7) with 7. rewrite E.
      replace (S j + m)%nat with (j + S m)%nat by lia. reflexivity.
Qed.

(** The end of createName: '0' closes the name, the next key chooses the
    extension. *)
Lemma createName_end keys stem pk cnt lim key rest lcd lcd1 :
  (1 <= List.length stem <= 8)%nat ->
  createName_loop keys (mkCn (repeat 0 13) (-1) 0 0 2) lcd =
    createName_loop (48 :: key :: rest)
      (mkCn (stem ++ repeat 0 (13 - List.length stem)) (Z.of_nat (List.length stem) - 1)
            pk cnt lim) lcd1 ->
  createName keys lcd =
    Done (mkNamed (stem ++ (if key =? RIGHT then codes ".ogg" else codes ".mp3") ++
                   repeat 0 (9 - List.length stem))
                  rest (lcd1 ++ [(LINE4, codes "MP3(L)/OGG(R)?")])).
Proof.
  intros Hlen E. unfold createName. rewrite E. clear E.
  cbn [createName_loop Z.eqb]. unfold createName_key.
  cbn [cn_name cn_index cn_prevkey cn_cnt cn_limit Z.eqb Pos.eqb Z.gtb Z.leb Z.compare
       Pos.compare Pos.compare_cont andb].
  replace (Z.of_nat (List.length stem) - 1 >? -1) with true by lia.
  cbn [cn_name cn_index].
  replace (Z.of_nat (List.length stem) - 1 + 1) with (Z.of_nat (List.length stem)) by lia.
  set (ext := if key =? RIGHT then codes ".ogg" else codes ".mp3").
  assert (List.length ext = 4%nat) as Hext by (subst ext; destruct (key =? RIGHT); reflexivity).
  assert (map u8 ext = ext) as Hu8 by (subst ext; destruct (key =? RIGHT); reflexivity).
  rewrite strcpy_at_spec by (rewrite ?length_app, ?repeat_length, ?Hext; lia).
  rewrite Hu8, Nat2Z.id, Hext.
  rewrite firstn_app, Nat.sub_diag, firstn_all. cbn [firstn]. rewrite app_nil_r.
  replace (S (List.length stem + 4)) with (5 + List.length stem)%nat by lia.
  rewrite <- skipn_skipn, skipn_app, Nat.sub_diag, skipn_all. cbn [app].
  change (skipn 0 ?l) with l.
  replace (13 - List.length stem)%nat with (5 + (8 - List.length stem))%nat by lia.
  change (skipn 5 (repeat 0 (5 + (8 - List.length stem))))
    with (repeat 0 (8 - List.length stem)).
  replace (9 - List.length stem)%nat with (S (8 - List.length stem)) by lia. reflexivity.
Qed.

(** '#' counts on the eighth character only.  Pressed n times on an empty
    name, '#' types n characters '0' while n is at most eight; the presses
    after the eighth count the last character up, 1, 2, ... 9 and 0 again.
    No earlier character is ever incremented. *)
Theorem hash_key_counts_on_eighth n key rest lcd :
  (1 <= n)%nat ->
  exists lcd',
    createName (repeat 35 n ++ 48 :: key :: rest) lcd =
      Done (mkNamed (repeat 48 (Nat.min n 8 - 1) ++ [48 + Z.of_nat ((n - 8) mod 10)] ++
                     (if key =? RIGHT then codes ".ogg" else codes ".mp3") ++
                     repeat 0 (9 - Nat.min n 8))
                    rest lcd').
Proof.
  intros Hn. destruct (Nat.le_gt_cases n 8) as [Hle|Hgt].
  - destruct (hash_fill (48 :: key :: rest) 0 2 n [] 0 lcd) as (lcd1 & cnt1 & E & _);
      [cbn [List.length]; lia | lia |].
    eexists. rewrite (createName_end _ (repeat 48 n) 0 cnt1 2 key rest lcd lcd1).
    + rewrite repeat_length. replace (Nat.min n 8) with n by lia.
      replace (n - 8)%nat with 0%nat by lia.
      replace (repeat 48 n) with (repeat 48 (n - 1) ++ [48 + Z.of_nat (0 mod 10)]).
      * rewrite <- app_assoc. reflexivity.
      * change [48 + Z.of_nat (0 mod 10)] with (repeat 48 1). rewrite <- repeat_app.
        f_equal. lia.
    + rewrite repeat_length. lia.
    + rewrite repeat_length. exact E.
  - assert (repeat 35 n = repeat 35 8 ++ repeat 35 (n - 8)) as ->
      by (rewrite <- repeat_app; f_equal; lia).
    rewrite <- app_assoc.
    destruct (hash_fill (repeat 35 (n - 8) ++ 48 :: key :: rest) 0 2 8 [] 0 lcd)
      as (lcd1 & cnt1 & E & Hc); [cbn [List.length]; lia | lia |].
    destruct (hash_count (48 :: key :: rest) 0 2 (repeat 48 7) (repeat 0 5) eq_refl
                (n - 8) 0 cnt1 lcd1 ltac:(lia) Hc) as [lcd2 E2].
    eexists.
    rewrite (createName_end _ (repeat 48 7 ++ [48 + Z.of_nat ((n - 8) mod 10)])
               0 cnt1 2 key rest lcd lcd2).
    + replace (Nat.min n 8) with 8%nat by lia. rewrite <- app_assoc. reflexivity.
    + cbn [List.length repeat app]. lia.
    + exact (eq_trans E E2).
Qed.

Lemma hash_key_counts_on_eighth_witness :
  exists lcd',
    createName (repeat 35 3 ++ [48; LEFT]) [] =
      Done (mkNamed (codes "000.mp3" ++ repeat 0 6) [] lcd').
Proof.
  apply (hash_key_counts_on_eighth 3 LEFT [] []). lia.
Defined.
